(** * Noise-filter interceptor: frame reassembly and suppression pipeline

    Shallow embedding of [pkg/sfu/interceptor/noise_filter.go] (and of the
    configuration record of [pkg/sfu/audio]) together with the properties
    of the packet-level transform.

    - Go [float32] values are IEEE-754 binary32 numbers, modelled with the
      executable specification of [SpecFloat] at precision 24 and maximal
      exponent 128.
    - Byte slices are [list Byte.byte]; an [int16] is a [Z] in
      [-32768, 32767]; lengths and indices are [nat].
    - The denoising engine (go-rnnoise) and the RTP codec (pion/rtp) are
      external libraries: they are interfaces ([Class]) of the model.
    - A run-time panic of the Go code (index or slice bound out of range)
      is the [Panic] outcome of the [result] monad.
    - The mutexes of the source serialise accesses to one reader; the
      model is the sequential behaviour under that lock. Logging is not
      modelled. *)

From Stdlib Require Import String.
From Stdlib Require Import ZArith List Bool Lia PeanoNat.
From Stdlib Require Import Floats.SpecFloat.
From Stdlib Require Strings.Byte.
Import ListNotations.

Set Implicit Arguments.

(** ** Constants of the engine's frame format *)

Definition rnnoiseSampleRate : Z := 48000.
Definition rnnoiseFrameSize : nat := 480.
Definition rnnoiseBytesPerSample : nat := 2.
Definition rnnoiseFrameBytes : nat := rnnoiseFrameSize * rnnoiseBytesPerSample.

(** ** Panics *)

Inductive result (A : Type) : Type :=
| Ok (a : A)
| Panic.
Arguments Panic {A}.

Definition bind {A B : Type} (c : result A) (k : A -> result B) : result B :=
  match c with
  | Ok a => k a
  | Panic => Panic
  end.

Notation "x <- c ;; k" := (bind c (fun x => k))
  (at level 61, c at next level, right associativity).
Notation "' p <- c ;; k" := (bind c (fun x => let p := x in k))
  (at level 61, p pattern, c at next level, right associativity).

(** ** binary32 arithmetic *)

Module F32.

Definition prec : Z := 24.
Definition emax : Z := 128.

Definition t := spec_float.

Definition valid (x : t) : bool := valid_binary prec emax x.
Definition mul (x y : t) : t := SFmul prec emax x y.
Definition div (x y : t) : t := SFdiv prec emax x y.
Definition ltb (x y : t) : bool := SFltb x y.
Definition leb (x y : t) : bool := SFleb x y.

(** Conversion of an integer to [float32], rounding to nearest even
    (exact for every [int16]). *)
Definition of_Z (z : Z) : t := binary_normalize prec emax z 0 false.

Definition is_nan (x : t) : bool :=
  match x with S754_nan => true | _ => false end.

(** The constants the source writes: [32768.0], [32767], [-32768],
    [0.1] (the binary32 nearest to one tenth, 0x3DCCCCCD) and [1.0]. *)
Definition c32768 : t := S754_finite false 8388608 (-8).
Definition c32767 : t := S754_finite false 16776704 (-9).
Definition cm32768 : t := S754_finite true 8388608 (-8).
Definition c0_1 : t := S754_finite false 13421773 (-27).
Definition c0_5 : t := S754_finite false 8388608 (-24).
Definition c1 : t := S754_finite false 8388608 (-23).

(** Integer part of a finite value (rounding toward zero). *)
Definition truncate (x : t) : option Z :=
  match x with
  | S754_zero _ => Some 0%Z
  | S754_finite s m e =>
      let a := Z.shiftl (Zpos m) e in
      Some (if s then Z.opp a else a)
  | S754_infinity _ | S754_nan => None
  end.

Definition wrap16 (z : Z) : Z := ((z + 32768) mod 65536 - 32768)%Z.

(** Go's conversion [int16(x)] of a [float32]: the fraction is
    discarded. When the integer part does not fit the result the Go
    specification leaves the value to the implementation; the model
    follows the gc compiler on amd64, which converts to a 32-bit
    integer (0x80000000 when that is impossible) and keeps the low 16
    bits. *)
Definition to_int16 (x : t) : Z :=
  match truncate x with
  | Some z =>
      if ((-2147483648 <=? z) && (z <=? 2147483647))%Z then wrap16 z
      else 0%Z
  | None => 0%Z
  end.

End F32.

(** ** Wire encoding of samples: 16-bit signed little endian *)

Definition byte : Set := Byte.byte.

Definition byte_of_Z (z : Z) : byte :=
  match Byte.of_N (Z.to_N (z mod 256)) with
  | Some b => b
  | None => Byte.x00
  end.

Definition Z_of_byte (b : byte) : Z := Z.of_N (Byte.to_N b).

(** [binary.LittleEndian.Uint16(frame[off:])] *)
Definition Uint16 (frame : list byte) (off : nat) : Z :=
  Z.lor (Z_of_byte (nth off frame Byte.x00))
        (Z.shiftl (Z_of_byte (nth (S off) frame Byte.x00)) 8).

(** [int16(u)] of a [uint16] *)
Definition int16_of_uint16 (u : Z) : Z :=
  if (u <? 32768)%Z then u else (u - 65536)%Z.

(** [uint16(v)] of an [int16] *)
Definition uint16_of_int16 (v : Z) : Z := (v mod 65536)%Z.

(** [binary.LittleEndian.PutUint16], as the two bytes written *)
Definition PutUint16 (u : Z) : list byte :=
  [byte_of_Z u; byte_of_Z (Z.shiftr u 8)].

(** The sample read at index [i] of a frame, normalised:
    [float32(int16(Uint16(frame[i*2:]))) / 32768.0]. *)
Definition sample_at (frame : list byte) (i : nat) : F32.t :=
  let int16Val := int16_of_uint16 (Uint16 frame (i * 2)) in
  F32.div (F32.of_Z int16Val) F32.c32768.

Definition decode_samples (frame : list byte) : list F32.t :=
  map (sample_at frame) (seq 0 rnnoiseFrameSize).

(** The loop that converts the samples back to bytes:
    [PutUint16(processedFrame[i*2:], uint16(int16(sample)))]. *)
Definition encode_samples (samples : list F32.t) : list byte :=
  flat_map (fun sample => PutUint16 (uint16_of_int16 (F32.to_int16 sample)))
           samples.

(** ** Configuration ([pkg/sfu/audio]) *)

Record NoiseFilterConfig : Type := {
  Enabled : bool;
  Threshold : F32.t;
  Aggressive : bool
}.


(** ** External collaborators *)

(** What one call of [FilterStream] returns:
    [denoisedFrame, _, keepFrame, err]. *)
Record FilterResult : Type := {
  denoisedFrame : list F32.t;
  vadProbability : F32.t;
  keepFrame : bool;
  filterErr : bool
}.

(** The go-rnnoise binding. A [*rnnoise.NoiseFilter] is a mutable object:
    [NoiseFilter] is its state and [FilterStream] returns the next state
    with the results; the call does not write to the slice it is given.
    [NewNoiseFilter k] is the outcome of the [k]-th call of the
    constructor in the life of a reader (calls are counted from 0): the
    handle returned, [None] for [nil], and whether the error is non-nil. *)
Class Rnnoise : Type := {
  NoiseFilter : Type;
  NewNoiseFilter : nat -> option NoiseFilter * bool;
  FilterStream : NoiseFilter -> list F32.t -> F32.t -> NoiseFilter * FilterResult
}.

(** pion/rtp: [Unmarshal] splits a packet into its header and payload
    ([None] on a parse error), [Marshal] serialises a header and a
    payload ([None] on error). *)
Class Rtp : Type := {
  Header : Type;
  Unmarshal : list byte -> option (Header * list byte);
  Marshal : Header -> list byte -> option (list byte)
}.

(** pion/interceptor attributes: a [nil] map is [None]. *)
Class Attrs : Type := {
  AttrMap : Type;
  make_Attributes : AttrMap
}.

Definition Attributes `{Attrs} : Type := option AttrMap.

(** ** The per-stream reader *)

Section Reader.

Context {engine : Rnnoise} {rtp : Rtp} {attrs : Attrs}.

(** [noiseFilterReader]. The wrapped reader is the source of the
    [Upstream] outcomes below; [created] is a ghost field that counts
    the calls this reader has made to the engine's constructor. *)
Record noiseFilterReader : Type := {
  config : NoiseFilterConfig;
  denoiser : option NoiseFilter;
  buffer : list byte;
  created : nat
}.

(** The body of the loop over [denoisedFrame]: scale back to the 16-bit
    range and clamp. *)
Definition clampSample (sample : F32.t) : F32.t :=
  let clampedSample := F32.mul sample F32.c32768 in
  if F32.ltb F32.c32767 clampedSample then F32.c32767
  else if F32.ltb clampedSample F32.cm32768 then F32.cm32768
  else clampedSample.

(** [for i, sample := range denoisedFrame { samples[i] = ... }]:
    the assignment panics once [i] reaches [len(samples)]. *)
Fixpoint overwrite (samples denoised : list F32.t) : result (list F32.t) :=
  match denoised, samples with
  | [], _ => Ok samples
  | sample :: denoised', _ :: samples' =>
      rest <- overwrite samples' denoised' ;;
      Ok (clampSample sample :: rest)
  | _ :: _, [] => Panic
  end.

(** [samples[i] *= 0.1] *)
Definition attenuate (samples : list F32.t) : list F32.t :=
  map (fun sample => F32.mul sample F32.c0_1) samples.

(** The block guarded by [r.mu] inside the frame loop. *)
Definition suppress (threshold : F32.t) (d : option NoiseFilter)
    (samples : list F32.t) : result (option NoiseFilter * list F32.t) :=
  match d with
  | None => Ok (None, samples)
  | Some h =>
      let '(h', res) := FilterStream h samples threshold in
      if negb (filterErr res) && keepFrame res then
        samples' <- overwrite samples (denoisedFrame res) ;;
        Ok (Some h', samples')
      else if negb (keepFrame res) then
        Ok (Some h', attenuate samples)
      else
        Ok (Some h', samples)
  end.

(** One iteration of the frame loop on the frame [r.buffer[:960]]. *)
Definition processFrame (threshold : F32.t) (d : option NoiseFilter)
    (frame : list byte) : result (option NoiseFilter * list byte) :=
  '(d', samples) <- suppress threshold d (decode_samples frame) ;;
  Ok (d', encode_samples samples).

(** [for len(r.buffer) >= rnnoiseFrameBytes { ... }]. Every iteration
    removes one frame from the buffer, so [length buf] iterations are
    always enough ([drain_fuel] below). *)
Fixpoint drain (fuel : nat) (threshold : F32.t) (d : option NoiseFilter)
    (buf processedData : list byte)
    : result (option NoiseFilter * list byte * list byte) :=
  match fuel with
  | O => Ok (d, buf, processedData)
  | S fuel' =>
      if rnnoiseFrameBytes <=? length buf then
        let frame := firstn rnnoiseFrameBytes buf in
        '(d', processedFrame) <- processFrame threshold d frame ;;
        drain fuel' threshold d' (skipn rnnoiseFrameBytes buf)
              (processedData ++ processedFrame)
      else Ok (d, buf, processedData)
  end.

Definition processAudioPayload (r : noiseFilterReader) (payload : list byte)
    : result (noiseFilterReader * list byte) :=
  if length payload <? rnnoiseFrameBytes then
    (* Frame too small, pass through *)
    Ok (r, payload)
  else
    let buf := buffer r ++ payload in
    '(d, buf', processedData) <-
      drain (length buf) (Threshold (config r)) (denoiser r) buf [] ;;
    (* Add remaining buffer back to processed data *)
    if 0 <? length buf' then
      Ok ({| config := config r; denoiser := d; buffer := [];
             created := created r |},
          processedData ++ buf')
    else
      Ok ({| config := config r; denoiser := d; buffer := buf';
             created := created r |},
          processedData).

(** What the wrapped reader did with the caller's slice [b]: the
    contents of [b] afterwards and the values it returned. *)
Record Upstream : Type := {
  up_b : list byte;
  up_n : nat;
  up_a : Attributes;
  up_err : bool
}.

(** What [Read] leaves in [b] and returns. *)
Record ReadResult : Type := {
  out_b : list byte;
  out_n : nat;
  out_a : Attributes;
  out_err : bool
}.

(** [return n, a, nil] with [b] as the wrapped reader left it. *)
Definition original (up : Upstream) (a : Attributes) : ReadResult :=
  {| out_b := up_b up; out_n := up_n up; out_a := a; out_err := false |}.

(** The lazy initialisation at the head of [Read]: [inr] when the
    constructor reported an error. *)
Definition initDenoiser (r : noiseFilterReader)
    : noiseFilterReader + noiseFilterReader :=
  match denoiser r with
  | Some _ => inl r
  | None =>
      let '(h, err) := NewNoiseFilter (created r) in
      let r' := {| config := config r; denoiser := h; buffer := buffer r;
                   created := S (created r) |} in
      if err then inr r' else inl r'
  end.

Definition Read (r : noiseFilterReader) (up : Upstream)
    : result (noiseFilterReader * ReadResult) :=
  if up_err up then
    Ok (r, {| out_b := up_b up; out_n := up_n up; out_a := up_a up;
              out_err := true |})
  else
    match initDenoiser r with
    | inr r' => Ok (r', original up (up_a up))
    | inl r' =>
        let a := match up_a up with
                 | None => Some make_Attributes
                 | Some m => Some m
                 end in
        if length (up_b up) <? up_n up then Panic
        else
          match Unmarshal (firstn (up_n up) (up_b up)) with
          | None => Ok (r', original up a)
          | Some (header, payload) =>
              if 0 <? length payload then
                '(r'', processedPayload) <- processAudioPayload r' payload ;;
                match Marshal header processedPayload with
                | None => Ok (r'', original up a)
                | Some newData =>
                    if length newData <=? length (up_b up) then
                      Ok (r'',
                          {| out_b := newData
                                        ++ skipn (length newData) (up_b up);
                             out_n := length newData;
                             out_a := a;
                             out_err := false |})
                    else Ok (r'', original up a)
                end
              else Ok (r', original up a)
          end
    end.

(** Successive [Read] calls on one reader, collecting what each call
    returned. *)
Fixpoint Reads (r : noiseFilterReader) (ups : list Upstream)
    : result (noiseFilterReader * list ReadResult) :=
  match ups with
  | [] => Ok (r, [])
  | up :: ups' =>
      '(r', res) <- Read r up ;;
      '(r'', rest) <- Reads r' ups' ;;
      Ok (r'', res :: rest)
  end.

(** Two successive calls of [processAudioPayload], with the emitted
    payloads concatenated. *)
Definition feed2 (r : noiseFilterReader) (A B : list byte)
    : result (noiseFilterReader * list byte) :=
  '(r1, outA) <- processAudioPayload r A ;;
  '(r2, outB) <- processAudioPayload r1 B ;;
  Ok (r2, outA ++ outB).

(** The engine honours the frame format when it never returns more
    samples than one frame holds. *)
Definition frame_sized : Prop :=
  forall h samples threshold,
    length samples = rnnoiseFrameSize ->
    length (denoisedFrame (snd (FilterStream h samples threshold)))
    <= rnnoiseFrameSize.

End Reader.

(** ** Factory and stream binding *)

Record RTPHeaderExtension : Type := {
  URI : string;
  ID : Z
}.

(** [interceptor.StreamInfo], with the fields the interceptor reads; a
    [nil] slice of extensions is [None]. *)
Record StreamInfo : Type := {
  SSRC : Z;
  PayloadType : Z;
  RTPHeaderExtensions : option (list RTPHeaderExtension)
}.

Record NoiseFilterFactory : Type := {
  factory_config : NoiseFilterConfig
}.

Definition NewNoiseFilterFactory (c : NoiseFilterConfig) : NoiseFilterFactory :=
  {| factory_config := c |}.


Definition GetConfig (f : NoiseFilterFactory) : NoiseFilterConfig :=
  factory_config f.

Definition audioLevelURI : string :=
  "urn:ietf:params:rtp-hdrext:ssrc-audio-level".

(** Modelled from the spec: [utils.GetHeaderExtensionID] of
    [pkg/sfu/utils] is not among the sources. The spec has the stream's
    extension set "include" the audio-level extension; the helper is the
    identifier of the first extension of the set with the given URI, and
    0 when the set has none. *)
Fixpoint GetHeaderExtensionID_model (extensions : list RTPHeaderExtension)
    (uri : string) : Z :=
  match extensions with
  | [] => 0%Z
  | h :: rest =>
      if String.eqb uri (URI h) then ID h
      else GetHeaderExtensionID_model rest uri
  end.

(** A set of extensions has none with the given URI. *)
Definition lacks (uri : string) (extensions : list RTPHeaderExtension) : Prop :=
  Forall (fun h => URI h <> uri) extensions.

(** A stream whose bind-time metadata has no audio-level extension: a
    [nil] set, an empty one, or one without that URI. *)
Definition lacks_audio_level (info : StreamInfo) : Prop :=
  match RTPHeaderExtensions info with
  | None => True
  | Some extensions => lacks audioLevelURI extensions
  end.

Section Bind.

Context {engine : Rnnoise} {rtp : Rtp} {attrs : Attrs}.

(** The helper of [pkg/sfu/utils], a parameter of the binding. *)
Variable GetHeaderExtensionID : list RTPHeaderExtension -> string -> Z.

(** The reader [BindRemoteStream] returns: the one it was given, or a
    [noiseFilterReader] around it. *)
Inductive RTPReader : Type :=
| reader_original
| reader_filter (r : noiseFilterReader).

Definition BindRemoteStream (factory : NoiseFilterFactory) (info : StreamInfo)
    : RTPReader :=
  match RTPHeaderExtensions info with
  | None => reader_original
  | Some extensions =>
      let config := GetConfig factory in
      if negb (Enabled config) then reader_original
      else
        let audioLevelExtID := GetHeaderExtensionID extensions audioLevelURI in
        if (audioLevelExtID =? 0)%Z then reader_original
        else
          reader_filter {| config := config; denoiser := None;
                           buffer := []; created := 0 |}
  end.

(** One read through the reader a stream was bound to. *)
Definition deliver (rd : RTPReader) (up : Upstream)
    : result (RTPReader * ReadResult) :=
  match rd with
  | reader_original =>
      Ok (reader_original,
          {| out_b := up_b up; out_n := up_n up; out_a := up_a up;
             out_err := up_err up |})
  | reader_filter r =>
      '(r', res) <- Read r up ;;
      Ok (reader_filter r', res)
  end.

End Bind.

(** ** Concrete collaborators, for running the model *)

(** An engine without state whose constructor follows the script [new]
    and whose [FilterStream] answers [answer samples]. *)
Definition scripted (new : nat -> option unit * bool)
    (answer : list F32.t -> FilterResult) : Rnnoise :=
  {| NoiseFilter := unit;
     NewNoiseFilter := new;
     FilterStream := fun _ samples _ => (tt, answer samples) |}.

Definition new_ok (k : nat) : option unit * bool := (Some tt, false).
Definition new_fails (k : nat) : option unit * bool := (None, true).
Definition new_fails_once (k : nat) : option unit * bool :=
  if k =? 0 then (None, true) else (Some tt, false).

(** Returns the samples it was given and reports voice. *)
Definition answer_voice (samples : list F32.t) : FilterResult :=
  {| denoisedFrame := samples; vadProbability := F32.c1;
     keepFrame := true; filterErr := false |}.

(** Returns the samples it was given and reports no voice. *)
Definition answer_noise (samples : list F32.t) : FilterResult :=
  {| denoisedFrame := samples; vadProbability := S754_zero false;
     keepFrame := false; filterErr := false |}.

(** Fails, with [keepFrame] as given. *)
Definition answer_error (keep : bool) (samples : list F32.t) : FilterResult :=
  {| denoisedFrame := []; vadProbability := S754_zero false;
     keepFrame := keep; filterErr := true |}.

(** Reports voice and returns a frame of samples all equal to [x]. *)
Definition answer_const (x : F32.t) (samples : list F32.t) : FilterResult :=
  {| denoisedFrame := map (fun _ => x) samples; vadProbability := F32.c1;
     keepFrame := true; filterErr := false |}.

(** RTP packets made of the fixed 12-byte header and the payload (no
    CSRC, no extension, no padding). *)
Definition fixed_header : Rtp :=
  {| Header := list byte;
     Unmarshal := fun b =>
       if length b <? 12 then None else Some (firstn 12 b, skipn 12 b);
     Marshal := fun h payload => Some (h ++ payload) |}.

Definition string_attrs : Attrs :=
  {| AttrMap := list (string * string); make_Attributes := [] |}.

(** A 12-byte header: version 2, payload type 111. *)
Definition header111 : list byte :=
  [Byte.x80; Byte.x6f; Byte.x00; Byte.x01; Byte.x00; Byte.x00; Byte.xbb;
   Byte.x80; Byte.x00; Byte.x00; Byte.x30; Byte.x39].

(** A frame whose 480 samples all have the value whose low and high
    bytes are given. *)
Definition const_frame (lo hi : byte) : list byte :=
  flat_map (fun _ => [lo; hi]) (seq 0 rnnoiseFrameSize).

Definition test_config : NoiseFilterConfig :=
  {| Enabled := true; Threshold := F32.c0_5; Aggressive := false |}.

(** The reader a stream is bound to, before its first packet. *)
Definition fresh_reader (e : Rnnoise) : noiseFilterReader :=
  {| config := test_config; denoiser := None; buffer := []; created := 0 |}.

(** A reader whose first packet created the engine [h]. *)
Definition ready_reader (e : Rnnoise) (h : NoiseFilter) : noiseFilterReader :=
  {| config := test_config; denoiser := Some h; buffer := []; created := 1 |}.

Definition voice_engine : Rnnoise := scripted new_ok answer_voice.
Definition noise_engine : Rnnoise := scripted new_ok answer_noise.

(** All samples 10000 (0x2710), then one more byte pair. *)
Definition frame_10000 : list byte := const_frame Byte.x10 Byte.x27.
Definition payload_962 : list byte := frame_10000 ++ [Byte.x01; Byte.x02].

#[export] Existing Instance fixed_header.
#[export] Existing Instance string_attrs.

(** A wrapped reader that filled the whole of the caller's slice with
    one packet: the header above and the given payload. *)
Definition upstream_packet (payload : list byte) : Upstream :=
  {| up_b := header111 ++ payload;
     up_n := length (header111 ++ payload);
     up_a := None;
     up_err := false |}.

(** The reads of the witnesses below: a packet of one frame and two
    bytes, then a packet of two bytes. *)
Definition two_packets : list Upstream :=
  [upstream_packet payload_962; upstream_packet [Byte.x01; Byte.x02]].

(** A read that came back with the bytes it was given and a fresh
    attribute map. *)
Definition unchanged (up : Upstream) : ReadResult :=
  {| out_b := up_b up; out_n := up_n up; out_a := Some [];
     out_err := false |}.

(** An engine whose constructor fails on its first call only and which
    then never reports voice. *)
Definition flaky_engine : Rnnoise := scripted new_fails_once answer_noise.

(** An engine whose constructor always fails. *)
Definition absent_engine : Rnnoise := scripted new_fails answer_noise.

(** A reader with two bytes in its accumulator. *)
Definition loaded_reader (e : Rnnoise) (h : NoiseFilter) : noiseFilterReader :=
  {| config := test_config; denoiser := Some h;
     buffer := [Byte.x01; Byte.x02]; created := 1 |}.

Definition audio_info : StreamInfo :=
  {| SSRC := 12345; PayloadType := 111;
     RTPHeaderExtensions := Some [{| URI := audioLevelURI; ID := 1 |}] |}.

Definition video_info : StreamInfo :=
  {| SSRC := 12345; PayloadType := 96; RTPHeaderExtensions := Some [] |}.

(** ** Definitions used to state what the frame loop emits *)

(** [p] holds of the [2 ^ k] integers from [lo] on. *)
Fixpoint all_in (k : nat) (lo : Z) (p : Z -> bool) : bool :=
  match k with
  | O => p lo
  | S k' => all_in k' lo p && all_in k' (lo + 2 ^ Z.of_nat k')%Z p
  end.

(** The 16-bit sample at index [i] of a frame:
    [int16(binary.LittleEndian.Uint16(frame[i*2:]))]. *)
Definition int16_at (frame : list byte) (i : nat) : Z :=
  int16_of_uint16 (Uint16 frame (i * 2)).

(** What the three paths of the frame loop make of a sample of value
    [v], once normalised: attenuated it converts to 0; scaled back and
    clamped it converts to [v]; left as it is it converts to 0, or to -1
    when [v] is -32768. *)
Definition sample_paths_ok (v : Z) : bool :=
  let sample := F32.div (F32.of_Z v) F32.c32768 in
  ((F32.to_int16 (F32.mul sample F32.c0_1) =? 0)
   && (F32.to_int16 (clampSample sample) =? v)
   && (F32.to_int16 sample =? (if v =? -32768 then -1 else 0)))%Z.

(** A frame in which every sample of -32768 has become -1 and every
    other sample 0. *)
Definition unscaled (frame : list byte) : list byte :=
  flat_map (fun i => PutUint16 (uint16_of_int16
                        (if (int16_at frame i =? -32768)%Z
                         then (-1)%Z else 0%Z)))
           (seq 0 rnnoiseFrameSize).

(** An engine that fails on every frame, with [keepFrame] set. *)
Definition error_engine : Rnnoise := scripted new_ok (answer_error true).

(** An engine that reports voice and returns one sample only. *)
Definition short_engine : Rnnoise :=
  scripted new_ok (fun samples =>
    {| denoisedFrame := firstn 1 samples; vadProbability := F32.c1;
       keepFrame := true; filterErr := false |}).


(** An engine is transparent when it always reports voice, no error, and
    returns the samples it was given. *)
Definition transparent (engine : Rnnoise) : Prop :=
  forall h samples threshold,
    let res := snd (FilterStream h samples threshold) in
    filterErr res = false /\ keepFrame res = true /\
    denoisedFrame res = samples.

(** An engine is deaf when it never reports voice. *)
Definition deaf (engine : Rnnoise) : Prop :=
  forall h samples threshold,
    keepFrame (snd (FilterStream h samples threshold)) = false.

(** * Properties *)

(** ** Frames and the frame loop *)

Lemma frame_bytes_eq : rnnoiseFrameBytes = 960.
Proof. reflexivity. Qed.

Lemma frame_bytes_pos : 0 < rnnoiseFrameBytes.
Proof. rewrite frame_bytes_eq. lia. Qed.

Lemma decode_samples_length (frame : list byte) :
  length (decode_samples frame) = rnnoiseFrameSize.
Proof. unfold decode_samples. now rewrite length_map, length_seq. Qed.

Lemma encode_samples_length (samples : list F32.t) :
  length (encode_samples samples) = 2 * length samples.
Proof.
  unfold encode_samples.
  induction samples as [|s samples IH]; [reflexivity|].
  cbn [flat_map]. rewrite length_app, IH. cbn [length PutUint16]. lia.
Qed.

Lemma attenuate_length (samples : list F32.t) :
  length (attenuate samples) = length samples.
Proof. apply length_map. Qed.

Section LoopFacts.

Context {engine : Rnnoise}.

Lemma overwrite_length (denoised samples samples' : list F32.t) :
  overwrite samples denoised = Ok samples' ->
  length samples' = length samples.
Proof.
  revert samples samples'.
  induction denoised as [|x denoised IH]; intros samples samples' H.
  - destruct samples; inversion H; reflexivity.
  - destruct samples as [|s samples]; [discriminate|].
    cbn [overwrite] in H.
    destruct (overwrite samples denoised) as [rest|] eqn:E; [|discriminate].
    inversion H; subst. cbn [length]. f_equal. now apply IH.
Qed.

Lemma overwrite_ok (denoised samples : list F32.t) :
  length denoised <= length samples ->
  exists samples', overwrite samples denoised = Ok samples'.
Proof.
  revert samples.
  induction denoised as [|x denoised IH]; intros samples H.
  - exists samples. now destruct samples.
  - destruct samples as [|s samples]; cbn [length] in H; [lia|].
    destruct (IH samples) as [rest E]; [lia|].
    exists (clampSample x :: rest). cbn [overwrite]. now rewrite E.
Qed.

Lemma suppress_length threshold d samples d' samples' :
  suppress threshold d samples = Ok (d', samples') ->
  length samples' = length samples.
Proof.
  unfold suppress. destruct d as [h|]; [|now inversion 1].
  destruct (FilterStream h samples threshold) as [h' res].
  destruct (negb (filterErr res) && keepFrame res).
  - destruct (overwrite samples (denoisedFrame res)) eqn:E; [|discriminate].
    cbn [bind]. inversion 1; subst. eapply overwrite_length; eassumption.
  - destruct (negb (keepFrame res)); inversion 1; subst;
      [apply attenuate_length | reflexivity].
Qed.

Lemma suppress_ok threshold d samples :
  frame_sized -> length samples = rnnoiseFrameSize ->
  exists d' samples', suppress threshold d samples = Ok (d', samples').
Proof.
  intros Hsz Hlen. unfold suppress. destruct d as [h|]; [|eauto].
  specialize (Hsz h samples threshold Hlen).
  destruct (FilterStream h samples threshold) as [h' res]. cbn [snd] in Hsz.
  destruct (negb (filterErr res) && keepFrame res).
  - destruct (overwrite_ok (denoisedFrame res) samples) as [s' E]; [lia|].
    rewrite E. cbn [bind]. eauto.
  - destruct (negb (keepFrame res)); eauto.
Qed.

Lemma processFrame_length threshold d frame d' out :
  processFrame threshold d frame = Ok (d', out) ->
  length out = rnnoiseFrameBytes.
Proof.
  unfold processFrame.
  destruct (suppress threshold d (decode_samples frame)) as [[d1 s1]|] eqn:E;
    [|discriminate].
  cbn [bind]. inversion 1; subst.
  rewrite encode_samples_length, (suppress_length _ _ _ E),
    decode_samples_length.
  reflexivity.
Qed.

Lemma processFrame_ok threshold d frame :
  frame_sized ->
  exists d' out, processFrame threshold d frame = Ok (d', out).
Proof.
  intros Hsz. unfold processFrame.
  destruct (suppress_ok threshold d (decode_samples frame) Hsz
              (decode_samples_length frame)) as (d' & s' & E).
  rewrite E. cbn [bind]. eauto.
Qed.

(** The two equations of the loop. *)
Lemma drain_stop fuel threshold d buf acc :
  length buf < rnnoiseFrameBytes ->
  drain fuel threshold d buf acc = Ok (d, buf, acc).
Proof.
  intros H. destruct fuel; [reflexivity|]. cbn [drain].
  destruct (Nat.leb_spec rnnoiseFrameBytes (length buf)); [lia|reflexivity].
Qed.

Lemma drain_step fuel threshold d buf acc :
  rnnoiseFrameBytes <= length buf ->
  drain (S fuel) threshold d buf acc =
  ('(d', processedFrame) <-
      processFrame threshold d (firstn rnnoiseFrameBytes buf) ;;
    drain fuel threshold d' (skipn rnnoiseFrameBytes buf)
          (acc ++ processedFrame)).
Proof.
  intros H. cbn [drain].
  destruct (Nat.leb_spec rnnoiseFrameBytes (length buf)); [reflexivity|lia].
Qed.

(** The fuel never decides the outcome: any two amounts of at least
    [length buf] give the same result. *)
Lemma drain_fuel_eq fuel fuel' threshold d buf acc :
  length buf <= fuel -> length buf <= fuel' ->
  drain fuel threshold d buf acc = drain fuel' threshold d buf acc.
Proof.
  pose proof frame_bytes_pos as Hpos.
  revert fuel' d buf acc.
  induction fuel as [|fuel IH]; intros fuel' d buf acc Hle Hle'.
  - rewrite !drain_stop by lia. reflexivity.
  - destruct (Nat.lt_ge_cases (length buf) rnnoiseFrameBytes) as [Hs|Hl].
    + now rewrite !drain_stop.
    + destruct fuel' as [|fuel']; [lia|].
      rewrite !drain_step by assumption.
      destruct (processFrame threshold d (firstn rnnoiseFrameBytes buf))
        as [[d' pf]|]; [|reflexivity].
      cbn [bind]. apply IH; rewrite length_skipn; lia.
Qed.

Lemma drain_fuel fuel threshold d buf acc :
  length buf <= fuel ->
  drain fuel threshold d buf acc = drain (length buf) threshold d buf acc.
Proof. intros H. apply drain_fuel_eq; lia. Qed.

(** What the loop returns: the processed frames, a whole number of
    them, and the rest of the buffer, shorter than one frame. *)
Lemma drain_spec fuel threshold d buf acc d' rest out :
  length buf <= fuel ->
  drain fuel threshold d buf acc = Ok (d', rest, out) ->
  exists processed,
    out = acc ++ processed /\
    length processed = rnnoiseFrameBytes * (length buf / rnnoiseFrameBytes) /\
    rest = skipn (length processed) buf /\
    length rest = length buf mod rnnoiseFrameBytes.
Proof.
  pose proof frame_bytes_pos as Hpos.
  revert d buf acc.
  induction fuel as [fuel IH] using lt_wf_ind; intros d buf acc Hle H.
  destruct (Nat.lt_ge_cases (length buf) rnnoiseFrameBytes) as [Hs|Hl].
  - rewrite drain_stop in H by assumption. inversion H; subst.
    exists []. rewrite app_nil_r, Nat.div_small, Nat.mod_small by assumption.
    rewrite Nat.mul_0_r. repeat split.
  - destruct fuel as [|fuel]; [lia|].
    rewrite drain_step in H by assumption.
    destruct (processFrame threshold d (firstn rnnoiseFrameBytes buf))
      as [[d1 pf]|] eqn:E; [|discriminate].
    cbn [bind] in H.
    pose proof (processFrame_length _ _ _ E) as Hpf.
    assert (Hsk : length (skipn rnnoiseFrameBytes buf)
                  = length buf - rnnoiseFrameBytes) by apply length_skipn.
    apply (IH fuel) in H; [|lia|lia].
    destruct H as (processed & Hout & Hlen & Hrest & Hmod).
    exists (pf ++ processed).
    assert (Hdiv : length buf / rnnoiseFrameBytes
                   = S ((length buf - rnnoiseFrameBytes) / rnnoiseFrameBytes)).
    { replace (length buf)
        with ((length buf - rnnoiseFrameBytes) + 1 * rnnoiseFrameBytes)
        at 1 by lia.
      rewrite Nat.div_add by lia. lia. }
    assert (Hm : length buf mod rnnoiseFrameBytes
                 = (length buf - rnnoiseFrameBytes) mod rnnoiseFrameBytes).
    { replace (length buf)
        with ((length buf - rnnoiseFrameBytes) + 1 * rnnoiseFrameBytes)
        at 1 by lia.
      now rewrite Nat.Div0.mod_add. }
    rewrite Hsk in Hlen, Hmod.
    repeat split.
    + now rewrite Hout, app_assoc.
    + rewrite length_app, Hpf, Hlen, Hdiv. lia.
    + rewrite Hrest, skipn_skipn, length_app, Hpf. f_equal. lia.
    + congruence.
Qed.

Lemma drain_ok fuel threshold d buf acc :
  frame_sized ->
  exists d' rest out, drain fuel threshold d buf acc = Ok (d', rest, out).
Proof.
  intros Hsz. revert d buf acc.
  induction fuel as [|fuel IH]; intros d buf acc; [cbn; eauto|].
  destruct (Nat.lt_ge_cases (length buf) rnnoiseFrameBytes) as [Hs|Hl].
  - rewrite drain_stop by assumption. eauto.
  - rewrite drain_step by assumption.
    destruct (processFrame_ok threshold d (firstn rnnoiseFrameBytes buf) Hsz)
      as (d1 & pf & E).
    rewrite E. cbn [bind]. apply IH.
Qed.

End LoopFacts.

(** ** The payload transform *)

Section PayloadFacts.

Context {engine : Rnnoise}.

Lemma processAudioPayload_short (r : noiseFilterReader) payload :
  length payload < rnnoiseFrameBytes ->
  processAudioPayload r payload = Ok (r, payload).
Proof.
  intros H. unfold processAudioPayload.
  destruct (Nat.ltb_spec (length payload) rnnoiseFrameBytes); [reflexivity|lia].
Qed.

(** With at least one frame of payload the call is the loop over
    [r.buffer ++ payload] followed by the flush of what the loop left. *)
Lemma processAudioPayload_long (r : noiseFilterReader) payload :
  rnnoiseFrameBytes <= length payload ->
  processAudioPayload r payload =
  ('(d, rest, processed) <-
      drain (length (buffer r ++ payload)) (Threshold (config r))
            (denoiser r) (buffer r ++ payload) [] ;;
    Ok ({| config := config r; denoiser := d; buffer := [];
           created := created r |}, processed ++ rest)).
Proof.
  intros H. unfold processAudioPayload.
  destruct (Nat.ltb_spec (length payload) rnnoiseFrameBytes); [lia|].
  destruct (drain _ _ _ _ _) as [[[d rest] processed]|]; [|reflexivity].
  cbn [bind]. destruct rest as [|b rest]; [|reflexivity].
  cbn [length Nat.ltb Nat.leb]. now rewrite app_nil_r.
Qed.

Lemma processAudioPayload_spec (r r' : noiseFilterReader) payload out :
  rnnoiseFrameBytes <= length payload ->
  processAudioPayload r payload = Ok (r', out) ->
  exists processed remainder,
    out = processed ++ remainder /\
    length processed
    = rnnoiseFrameBytes
      * ((length (buffer r) + length payload) / rnnoiseFrameBytes) /\
    remainder = skipn (length processed) (buffer r ++ payload) /\
    length remainder
    = (length (buffer r) + length payload) mod rnnoiseFrameBytes /\
    buffer r' = [] /\ config r' = config r /\ created r' = created r.
Proof.
  intros Hlong H. rewrite processAudioPayload_long in H by assumption.
  destruct (drain _ _ _ _ _) as [[[d rest] processed]|] eqn:E; [|discriminate].
  cbn [bind] in H. inversion H; subst; clear H.
  apply drain_spec in E; [|lia].
  destruct E as (p & Hp & Hlen & Hrest & Hmod).
  cbn [app] in Hp. subst processed.
  rewrite length_app in Hlen, Hmod.
  exists p, rest. cbn [buffer config created]. repeat split; assumption.
Qed.

Lemma processAudioPayload_ok (r : noiseFilterReader) payload :
  frame_sized ->
  exists r' out, processAudioPayload r payload = Ok (r', out).
Proof.
  intros Hsz.
  destruct (Nat.lt_ge_cases (length payload) rnnoiseFrameBytes) as [Hs|Hl].
  - rewrite processAudioPayload_short by assumption. eauto.
  - rewrite processAudioPayload_long by assumption.
    destruct (drain_ok (length (buffer r ++ payload)) (Threshold (config r))
                (denoiser r) (buffer r ++ payload) [] Hsz)
      as (d & rest & out & E).
    rewrite E. cbn [bind]. eauto.
Qed.

(** Whatever the payload, a call leaves the accumulator as it was or
    empty. *)
Lemma processAudioPayload_buffer (r r' : noiseFilterReader) payload out :
  processAudioPayload r payload = Ok (r', out) ->
  buffer r' = [] \/
  (buffer r' = buffer r /\ length payload < rnnoiseFrameBytes).
Proof.
  intros H.
  destruct (Nat.lt_ge_cases (length payload) rnnoiseFrameBytes) as [Hs|Hl].
  - rewrite processAudioPayload_short in H by assumption.
    inversion H; subst. now right.
  - left. apply processAudioPayload_spec in H; [|assumption].
    now destruct H as (_ & _ & _ & _ & _ & _ & ? & _).
Qed.

End PayloadFacts.

Lemma scripted_frame_sized new answer :
  (forall samples, length (denoisedFrame (answer samples)) <= length samples) ->
  @frame_sized (scripted new answer).
Proof.
  intros H h samples threshold Hlen. cbn. rewrite <- Hlen. apply H.
Qed.

Lemma voice_engine_frame_sized : @frame_sized voice_engine.
Proof. apply scripted_frame_sized. intros samples. cbn. lia. Qed.

Lemma noise_engine_frame_sized : @frame_sized noise_engine.
Proof. apply scripted_frame_sized. intros samples. cbn. lia. Qed.

(** ** C1: the sub-frame remainder *)

(** C1, as stated, fails: a payload of one frame and two more bytes, fed
    to a reader with an empty accumulator, comes back with 962 bytes, not
    one frame's 960; the two bytes left after the frame are the end of
    the output and the accumulator of the reader afterwards is empty. *)
Lemma remainder_emitted_not_retained :
  processAudioPayload (ready_reader voice_engine tt) payload_962
  = Ok (ready_reader voice_engine tt, frame_10000 ++ [Byte.x01; Byte.x02]) /\
  length payload_962 / rnnoiseFrameBytes = 1 /\
  length (frame_10000 ++ [Byte.x01; Byte.x02]) <> 1 * rnnoiseFrameBytes /\
  buffer (ready_reader voice_engine tt) = [].
Proof.
  split; [vm_compute; reflexivity|].
  split; [reflexivity|]. split; [|reflexivity].
  vm_compute. discriminate.
Qed.

(** C1, amended: for a payload of at least one frame the call returns,
    and its output is the processed complete frames (as many as the
    accumulator and the payload together hold, [rnnoiseFrameBytes] bytes
    each) followed by the bytes left after the last complete frame; those
    bytes are emitted unprocessed and the accumulator is cleared, so the
    output has as many bytes as the accumulator and the payload had. *)
Theorem remainder_flushed_to_output {engine : Rnnoise}
    (r : noiseFilterReader) (payload : list byte) :
  frame_sized ->
  rnnoiseFrameBytes <= length payload ->
  exists r' processed remainder,
    processAudioPayload r payload = Ok (r', processed ++ remainder) /\
    length processed
    = rnnoiseFrameBytes
      * ((length (buffer r) + length payload) / rnnoiseFrameBytes) /\
    remainder = skipn (length processed) (buffer r ++ payload) /\
    length remainder
    = (length (buffer r) + length payload) mod rnnoiseFrameBytes /\
    length (processed ++ remainder) = length (buffer r) + length payload /\
    buffer r' = [].
Proof.
  intros Hsz Hlong.
  destruct (processAudioPayload_ok r payload Hsz) as (r' & out & E).
  destruct (processAudioPayload_spec r payload Hlong E)
    as (processed & remainder & Hout & Hlen & Hrem & Hmod & Hbuf & _).
  subst out. exists r', processed, remainder.
  repeat split; try assumption.
  rewrite length_app, Hlen, Hmod.
  pose proof (Nat.div_mod_eq (length (buffer r) + length payload)
                rnnoiseFrameBytes).
  lia.
Qed.

Lemma remainder_flushed_to_output_witness :
  exists r' processed remainder,
    processAudioPayload (ready_reader voice_engine tt) payload_962
    = Ok (r', processed ++ remainder) /\
    length processed
    = rnnoiseFrameBytes
      * ((length (buffer (ready_reader voice_engine tt)) + length payload_962)
         / rnnoiseFrameBytes) /\
    remainder
    = skipn (length processed)
        (buffer (ready_reader voice_engine tt) ++ payload_962) /\
    length remainder
    = (length (buffer (ready_reader voice_engine tt)) + length payload_962)
      mod rnnoiseFrameBytes /\
    length (processed ++ remainder)
    = length (buffer (ready_reader voice_engine tt)) + length payload_962 /\
    buffer r' = [].
Proof.
  apply (@remainder_flushed_to_output voice_engine
           (ready_reader voice_engine tt) payload_962).
  - exact voice_engine_frame_sized.
  - vm_compute. lia.
Defined.

(** ** Reads *)

Section ReadFacts.

Context {engine : Rnnoise} {rtp : Rtp} {attrs : Attrs}.

Lemma initDenoiser_buffer (r r' : noiseFilterReader) :
  initDenoiser r = inl r' \/ initDenoiser r = inr r' ->
  buffer r' = buffer r.
Proof.
  unfold initDenoiser. destruct (denoiser r).
  - intros [H|H]; inversion H; reflexivity.
  - destruct (NewNoiseFilter (created r)) as [h err].
    destruct err; intros [H|H]; inversion H; reflexivity.
Qed.

Lemma Read_buffer (r r' : noiseFilterReader) up res :
  buffer r = [] -> Read r up = Ok (r', res) -> buffer r' = [].
Proof.
  intros Hb. unfold Read.
  destruct (up_err up); [inversion 1; now subst|].
  destruct (initDenoiser r) as [r1|r1] eqn:Ei.
  2:{ inversion 1; subst. rewrite <- Hb. apply initDenoiser_buffer; auto. }
  assert (Hb1 : buffer r1 = [])
    by (rewrite <- Hb; apply initDenoiser_buffer; auto).
  destruct (length (up_b up) <? up_n up); [discriminate|].
  destruct (Unmarshal _) as [[header payload]|]; [|inversion 1; now subst].
  destruct (0 <? length payload); [|inversion 1; now subst].
  destruct (processAudioPayload r1 payload) as [[r2 out]|] eqn:Ep;
    [|discriminate].
  cbn [bind].
  assert (Hb2 : buffer r2 = []).
  { destruct (processAudioPayload_buffer _ _ Ep) as [H|[H _]]; congruence. }
  destruct (Marshal header out) as [newData|]; [|inversion 1; now subst].
  destruct (length newData <=? length (up_b up)); inversion 1; now subst.
Qed.

Lemma Reads_buffer (ups : list Upstream) :
  forall (r r' : noiseFilterReader) results,
    buffer r = [] -> Reads r ups = Ok (r', results) -> buffer r' = [].
Proof.
  induction ups as [|up ups IH]; intros r r' results Hb H.
  - inversion H; now subst.
  - cbn [Reads] in H.
    destruct (Read r up) as [[r1 res]|] eqn:E1; [|discriminate].
    cbn [bind] in H.
    destruct (Reads r1 ups) as [[r2 rest]|] eqn:E2; [|discriminate].
    cbn [bind] in H. inversion H; subst.
    eapply IH; [|eassumption]. eapply Read_buffer; eassumption.
Qed.

Lemma BindRemoteStream_filter GetHeaderExtensionID factory info r :
  BindRemoteStream GetHeaderExtensionID factory info = reader_filter r ->
  r = {| config := GetConfig factory; denoiser := None; buffer := [];
         created := 0 |}.
Proof.
  unfold BindRemoteStream.
  destruct (RTPHeaderExtensions info); [|discriminate].
  destruct (negb _); [discriminate|].
  destruct (_ =? _)%Z; [discriminate|]. now inversion 1.
Qed.

End ReadFacts.

(** ** C10: the accumulator between packets *)

(** C10: the reader a stream is bound to starts with an empty
    accumulator, and after every completed [Read] of any sequence of
    reads the accumulator is empty again: a payload shorter than one
    frame is returned without touching the accumulator, and a longer one
    leaves nothing behind, the bytes after the last complete frame being
    part of the output. *)
Theorem accumulator_empty_after_every_read
    {engine : Rnnoise} {rtp : Rtp} {attrs : Attrs}
    (GetHeaderExtensionID : list RTPHeaderExtension -> string -> Z)
    (factory : NoiseFilterFactory) (info : StreamInfo)
    (r r' : noiseFilterReader) (ups : list Upstream)
    (results : list ReadResult) :
  BindRemoteStream GetHeaderExtensionID factory info = reader_filter r ->
  Reads r ups = Ok (r', results) ->
  buffer r = [] /\ buffer r' = [] /\
  (forall (q q' : noiseFilterReader) payload out,
      processAudioPayload q payload = Ok (q', out) ->
      (length payload < rnnoiseFrameBytes -> q' = q /\ out = payload) /\
      (rnnoiseFrameBytes <= length payload ->
       buffer q' = [] /\
       length out = length (buffer q) + length payload /\
       skipn (rnnoiseFrameBytes
              * ((length (buffer q) + length payload) / rnnoiseFrameBytes)) out
       = skipn (rnnoiseFrameBytes
                * ((length (buffer q) + length payload) / rnnoiseFrameBytes))
               (buffer q ++ payload))).
Proof.
  intros Hbind Hreads.
  apply BindRemoteStream_filter in Hbind.
  assert (Hb : buffer r = []) by (subst r; reflexivity).
  split; [assumption|]. split; [eapply Reads_buffer; eassumption|].
  intros q q' payload out Hp. split.
  - intros Hs. rewrite processAudioPayload_short in Hp by assumption.
    inversion Hp; now subst.
  - intros Hl.
    destruct (processAudioPayload_spec q payload Hl Hp)
      as (processed & remainder & Hout & Hlen & Hrem & Hmod & Hbuf & _).
    split; [assumption|]. subst out.
    pose proof (Nat.div_mod_eq (length (buffer q) + length payload)
                  rnnoiseFrameBytes) as Hdm.
    split.
    + rewrite length_app, Hlen, Hmod. lia.
    + rewrite <- Hlen, skipn_app, Nat.sub_diag, skipn_all. cbn [app skipn].
      now rewrite Hrem.
Qed.

Lemma accumulator_empty_after_every_read_witness :
  buffer (fresh_reader voice_engine) = [] /\
  buffer (ready_reader voice_engine tt) = [] /\
  (forall (q q' : @noiseFilterReader voice_engine) payload out,
      processAudioPayload q payload = Ok (q', out) ->
      (length payload < rnnoiseFrameBytes -> q' = q /\ out = payload) /\
      (rnnoiseFrameBytes <= length payload ->
       buffer q' = [] /\
       length out = length (buffer q) + length payload /\
       skipn (rnnoiseFrameBytes
              * ((length (buffer q) + length payload) / rnnoiseFrameBytes)) out
       = skipn (rnnoiseFrameBytes
                * ((length (buffer q) + length payload) / rnnoiseFrameBytes))
               (buffer q ++ payload))).
Proof.
  apply (@accumulator_empty_after_every_read voice_engine fixed_header
           string_attrs GetHeaderExtensionID_model
           (NewNoiseFilterFactory test_config) audio_info
           (fresh_reader voice_engine) (ready_reader voice_engine tt)
           two_packets (map unchanged two_packets)).
  - reflexivity.
  - vm_compute. reflexivity.
Defined.

(** ** C6: payloads shorter than one frame *)

(** C6: a payload shorter than one frame comes back from
    [processAudioPayload] as it went in, with the reader untouched; and a
    [Read] of a packet with such a payload, which the codec serialises
    back to the bytes it was parsed from, returns the input length, leaves
    the caller's bytes as they were and leaves the accumulator
    unchanged. *)
Theorem short_payload_returned_unchanged
    {engine : Rnnoise} {rtp : Rtp} {attrs : Attrs}
    (r : noiseFilterReader) (up : Upstream) (header : Header)
    (payload : list byte) :
  up_err up = false ->
  up_n up <= length (up_b up) ->
  Unmarshal (firstn (up_n up) (up_b up)) = Some (header, payload) ->
  length payload < rnnoiseFrameBytes ->
  Marshal header payload = Some (firstn (up_n up) (up_b up)) ->
  processAudioPayload r payload = Ok (r, payload) /\
  exists r' res,
    Read r up = Ok (r', res) /\
    out_n res = up_n up /\ out_b res = up_b up /\ out_err res = false /\
    buffer r' = buffer r.
Proof.
  intros Herr Hn Hun Hshort Hm.
  split; [now apply processAudioPayload_short|].
  unfold Read. rewrite Herr.
  destruct (initDenoiser r) as [r1|r1] eqn:Ei.
  2:{ eexists _, _. split; [reflexivity|]. cbn.
      repeat split. apply initDenoiser_buffer; auto. }
  assert (Hb1 : buffer r1 = buffer r) by (apply initDenoiser_buffer; auto).
  destruct (Nat.ltb_spec (length (up_b up)) (up_n up)); [lia|].
  rewrite Hun.
  destruct (0 <? length payload).
  - rewrite processAudioPayload_short by assumption. cbn [bind].
    rewrite Hm, length_firstn, Nat.min_l by assumption.
    destruct (Nat.leb_spec (up_n up) (length (up_b up))); [|lia].
    eexists _, _. split; [reflexivity|]. cbn.
    rewrite firstn_skipn. repeat split. assumption.
  - eexists _, _. split; [reflexivity|]. cbn. repeat split. assumption.
Qed.

Lemma short_payload_returned_unchanged_witness :
  processAudioPayload (fresh_reader voice_engine) [Byte.x01; Byte.x02]
  = Ok (fresh_reader voice_engine, [Byte.x01; Byte.x02]) /\
  exists r' res,
    Read (fresh_reader voice_engine) (upstream_packet [Byte.x01; Byte.x02])
    = Ok (r', res) /\
    out_n res = up_n (upstream_packet [Byte.x01; Byte.x02]) /\
    out_b res = up_b (upstream_packet [Byte.x01; Byte.x02]) /\
    out_err res = false /\
    buffer r' = buffer (fresh_reader voice_engine).
Proof.
  apply (@short_payload_returned_unchanged voice_engine fixed_header
           string_attrs (fresh_reader voice_engine)
           (upstream_packet [Byte.x01; Byte.x02]) header111
           [Byte.x01; Byte.x02]).
  - reflexivity.
  - vm_compute. lia.
  - reflexivity.
  - vm_compute. lia.
  - reflexivity.
Defined.

(** ** C8: a processed packet that does not fit the caller's slice *)

(** C8: when the packet serialised from the processed payload is longer
    than the caller's slice, [Read] returns without error, with the
    length the wrapped reader returned and the caller's bytes as the
    wrapped reader left them. *)
Theorem oversized_packet_returns_original
    {engine : Rnnoise} {rtp : Rtp} {attrs : Attrs}
    (r r1 r2 : noiseFilterReader) (up : Upstream) (header : Header)
    (payload processedPayload newData : list byte) :
  up_err up = false ->
  initDenoiser r = inl r1 ->
  up_n up <= length (up_b up) ->
  Unmarshal (firstn (up_n up) (up_b up)) = Some (header, payload) ->
  0 < length payload ->
  processAudioPayload r1 payload = Ok (r2, processedPayload) ->
  Marshal header processedPayload = Some newData ->
  length (up_b up) < length newData ->
  exists res,
    Read r up = Ok (r2, res) /\
    out_b res = up_b up /\ out_n res = up_n up /\ out_err res = false.
Proof.
  intros Herr Hi Hn Hun Hpos Hp Hm Hbig.
  unfold Read. rewrite Herr, Hi.
  destruct (Nat.ltb_spec (length (up_b up)) (up_n up)); [lia|].
  rewrite Hun.
  destruct (Nat.ltb_spec 0 (length payload)); [|lia].
  rewrite Hp. cbn [bind]. rewrite Hm.
  destruct (Nat.leb_spec (length newData) (length (up_b up))); [lia|].
  eexists. split; [reflexivity|]. cbn. repeat split.
Qed.

Lemma oversized_packet_returns_original_witness :
  exists res,
    Read (loaded_reader voice_engine tt) (upstream_packet frame_10000)
    = Ok (ready_reader voice_engine tt, res) /\
    out_b res = up_b (upstream_packet frame_10000) /\
    out_n res = up_n (upstream_packet frame_10000) /\
    out_err res = false.
Proof.
  apply (@oversized_packet_returns_original voice_engine fixed_header
           string_attrs (loaded_reader voice_engine tt)
           (loaded_reader voice_engine tt) (ready_reader voice_engine tt)
           (upstream_packet frame_10000) header111 frame_10000
           ([Byte.x01; Byte.x02] ++ frame_10000)
           (header111 ++ [Byte.x01; Byte.x02] ++ frame_10000)).
  - reflexivity.
  - reflexivity.
  - vm_compute. lia.
  - reflexivity.
  - vm_compute. lia.
  - vm_compute. reflexivity.
  - reflexivity.
  - vm_compute. lia.
Defined.

(** ** C2: failure of the engine's constructor *)

Section CreationFacts.

Context {engine : Rnnoise} {rtp : Rtp} {attrs : Attrs}.

Lemma Read_creation_fails (r : noiseFilterReader) up :
  denoiser r = None ->
  up_err up = false ->
  NewNoiseFilter (created r) = (None, true) ->
  Read r up
  = Ok ({| config := config r; denoiser := None; buffer := buffer r;
           created := S (created r) |},
        original up (up_a up)).
Proof.
  intros Hd He Hn. unfold Read, initDenoiser. now rewrite He, Hd, Hn.
Qed.

End CreationFacts.

(** C2, as stated, fails: with a constructor that fails on its first call
    only, the first [Read] returns its packet unchanged, and the second
    [Read] calls the constructor again (two calls have been made when it
    returns), obtains an engine and returns a processed packet that
    differs from its input. *)
Lemma creation_is_attempted_again :
  @NewNoiseFilter flaky_engine 0 = (None, true) /\
  Reads (fresh_reader flaky_engine)
        [upstream_packet frame_10000; upstream_packet frame_10000]
  = Ok (@Build_noiseFilterReader flaky_engine test_config (Some tt) [] 2,
        [original (upstream_packet frame_10000) None;
         {| out_b := header111 ++ const_frame Byte.x00 Byte.x00;
            out_n := 972; out_a := Some []; out_err := false |}]) /\
  header111 ++ const_frame Byte.x00 Byte.x00
  <> up_b (upstream_packet frame_10000).
Proof.
  split; [reflexivity|]. split; [vm_compute; reflexivity|].
  intros H. apply (f_equal (fun l => nth 12 l Byte.x00)) in H.
  vm_compute in H. discriminate.
Qed.

(** C2, amended: a [Read] on which the constructor fails (no handle, an
    error) returns its packet unchanged and without error, and leaves the
    reader without an engine; the reader keeps no trace of the failure, so
    the constructor is called again on the next [Read]. Over any run of
    reads on all of which the constructor fails, every packet is returned
    unchanged and the constructor has been called once per read. *)
Theorem failed_creation_passes_through_and_retries
    {engine : Rnnoise} {rtp : Rtp} {attrs : Attrs}
    (ups : list Upstream) (r : noiseFilterReader) :
  denoiser r = None ->
  (forall up, In up ups -> up_err up = false) ->
  (forall k, created r <= k < created r + length ups ->
             NewNoiseFilter k = (None, true)) ->
  Reads r ups
  = Ok ({| config := config r; denoiser := None; buffer := buffer r;
           created := created r + length ups |},
        map (fun up => original up (up_a up)) ups).
Proof.
  revert r. induction ups as [|up ups IH]; intros r Hd Herr Hnew.
  - cbn. rewrite Nat.add_0_r. destruct r; cbn in *. now subst.
  - cbn [Reads].
    rewrite Read_creation_fails;
      [|assumption | apply Herr; now left | apply Hnew; cbn [length]; lia].
    cbn [bind]. rewrite IH; cbn [denoiser created config buffer length].
    + cbn [bind map]. do 3 f_equal. lia.
    + reflexivity.
    + intros u Hu. apply Herr. now right.
    + intros k Hk. apply Hnew. cbn [length]. lia.
Qed.

Lemma failed_creation_passes_through_and_retries_witness :
  Reads (fresh_reader absent_engine) two_packets
  = Ok ({| config := config (fresh_reader absent_engine);
           denoiser := None;
           buffer := buffer (fresh_reader absent_engine);
           created := created (fresh_reader absent_engine)
                      + length two_packets |},
        map (fun up => original up (up_a up)) two_packets).
Proof.
  apply (@failed_creation_passes_through_and_retries absent_engine
           fixed_header string_attrs two_packets (fresh_reader absent_engine)).
  - reflexivity.
  - intros up [H|[H|[]]]; subst; reflexivity.
  - intros k _. reflexivity.
Defined.

(** ** C7: streams that are not filtered *)

Lemma GetHeaderExtensionID_model_lacks extensions uri :
  lacks uri extensions -> GetHeaderExtensionID_model extensions uri = 0%Z.
Proof.
  induction 1 as [|h rest Hh _ IH]; [reflexivity|].
  cbn [GetHeaderExtensionID_model].
  destruct (String.eqb_spec uri (URI h)); [congruence|assumption].
Qed.

(** C7: when the stream's metadata has no audio-level extension (a nil
    set, an empty set, or a set without that URI), or when the
    configuration is not enabled at bind time, [BindRemoteStream] returns
    the reader it was given, and every read through it returns what the
    wrapped reader returned, bytes included. The helper that looks the
    extension up is any function that answers 0 for a set without the
    URI. *)
Theorem unfiltered_stream_gets_original_reader
    {engine : Rnnoise} {rtp : Rtp} {attrs : Attrs}
    (GetHeaderExtensionID : list RTPHeaderExtension -> string -> Z)
    (factory : NoiseFilterFactory) (info : StreamInfo) :
  (forall extensions uri,
      lacks uri extensions -> GetHeaderExtensionID extensions uri = 0%Z) ->
  lacks_audio_level info \/ Enabled (GetConfig factory) = false ->
  BindRemoteStream GetHeaderExtensionID factory info = reader_original /\
  forall up,
    deliver (BindRemoteStream GetHeaderExtensionID factory info) up
    = Ok (reader_original,
          {| out_b := up_b up; out_n := up_n up; out_a := up_a up;
             out_err := up_err up |}).
Proof.
  intros Hget Hcase.
  assert (E : BindRemoteStream GetHeaderExtensionID factory info
              = reader_original).
  { unfold BindRemoteStream, lacks_audio_level in *.
    destruct (RTPHeaderExtensions info) as [extensions|]; [|reflexivity].
    destruct (Enabled (GetConfig factory)) eqn:En; [|reflexivity].
    destruct Hcase as [Hl|Hd]; [|discriminate].
    cbn [negb]. now rewrite (Hget _ _ Hl). }
  split; [assumption|]. intros up. now rewrite E.
Qed.

Lemma unfiltered_stream_gets_original_reader_witness :
  @BindRemoteStream voice_engine GetHeaderExtensionID_model
    (NewNoiseFilterFactory test_config) video_info = reader_original /\
  forall up,
    @deliver voice_engine fixed_header string_attrs
      (BindRemoteStream GetHeaderExtensionID_model
         (NewNoiseFilterFactory test_config) video_info) up
    = Ok (reader_original,
          {| out_b := up_b up; out_n := up_n up; out_a := up_a up;
             out_err := up_err up |}).
Proof.
  apply (@unfiltered_stream_gets_original_reader voice_engine fixed_header
           string_attrs GetHeaderExtensionID_model
           (NewNoiseFilterFactory test_config) video_info).
  - exact GetHeaderExtensionID_model_lacks.
  - left. constructor.
Defined.

(** * Further properties of the code *)

(** ** Exhaustive table of the sample conversions *)

(** [all_in] checks every integer of its range. *)
Lemma all_in_spec k lo p :
  all_in k lo p = true ->
  forall v, (lo <= v < lo + 2 ^ Z.of_nat k)%Z -> p v = true.
Proof.
  revert lo. induction k as [|k IH]; intros lo H v Hv.
  - cbn in *. replace v with lo by lia. assumption.
  - cbn [all_in] in H. apply andb_prop in H. destruct H as [H1 H2].
    rewrite Nat2Z.inj_succ, Z.pow_succ_r in Hv by lia.
    destruct (Z.lt_ge_cases v (lo + 2 ^ Z.of_nat k)).
    + apply (IH lo); [assumption|lia].
    + apply (IH (lo + 2 ^ Z.of_nat k)%Z); [assumption|lia].
Qed.

(** [sample_paths_ok] holds of every 16-bit sample value: the 65536
    cases are evaluated. *)
Lemma sample_paths_table : all_in 16 (-32768) sample_paths_ok = true.
Proof. vm_cast_no_check (@eq_refl bool true). Qed.

(** The three conversions of the frame loop, for any 16-bit sample. *)
Lemma sample_paths (v : Z) :
  (-32768 <= v <= 32767)%Z ->
  let sample := F32.div (F32.of_Z v) F32.c32768 in
  F32.to_int16 (F32.mul sample F32.c0_1) = 0%Z /\
  F32.to_int16 (clampSample sample) = v /\
  F32.to_int16 sample = (if (v =? -32768)%Z then (-1)%Z else 0%Z).
Proof.
  intros Hv sample.
  pose proof (@all_in_spec 16 (-32768)%Z sample_paths_ok sample_paths_table v) as H.
  assert (Hr : (-32768 <= v < -32768 + 2 ^ Z.of_nat 16)%Z)
    by (change (2 ^ Z.of_nat 16)%Z with 65536%Z; lia).
  specialize (H Hr). unfold sample_paths_ok in H. fold sample in H.
  apply andb_prop in H. destruct H as [H H3].
  apply andb_prop in H. destruct H as [H1 H2].
  apply Z.eqb_eq in H1, H2, H3. auto.
Qed.

Lemma Z_of_byte_range (b : byte) : (0 <= Z_of_byte b < 256)%Z.
Proof.
  unfold Z_of_byte. pose proof (Byte.to_N_bounded b). lia.
Qed.

Lemma byte_of_Z_of_byte (b : byte) : byte_of_Z (Z_of_byte b) = b.
Proof.
  unfold byte_of_Z. rewrite Z.mod_small by apply Z_of_byte_range.
  unfold Z_of_byte. now rewrite N2Z.id, Byte.of_to_N.
Qed.

Lemma lor_shiftl_8 lo hi :
  (0 <= lo < 256)%Z -> (0 <= hi)%Z ->
  Z.lor lo (Z.shiftl hi 8) = (lo + 256 * hi)%Z.
Proof.
  intros Hlo Hhi.
  assert (Hland : Z.land lo (Z.shiftl hi 8) = 0%Z).
  { apply Z.bits_inj'. intros n Hn. rewrite Z.land_spec, Z.bits_0.
    destruct (Z.lt_ge_cases n 8).
    - rewrite Z.shiftl_spec_low by assumption. apply andb_false_r.
    - rewrite <- (Z.mod_small lo (2 ^ 8)) by (change (2 ^ 8)%Z with 256%Z; lia).
      rewrite Z.mod_pow2_bits_high by lia. reflexivity. }
  rewrite <- Z.lxor_lor, <- Z.add_nocarry_lxor by assumption.
  rewrite Z.shiftl_mul_pow2 by lia. change (2 ^ 8)%Z with 256%Z. lia.
Qed.

(** The two bytes read little endian. *)
Lemma Uint16_value frame off :
  Uint16 frame off
  = (Z_of_byte (nth off frame Byte.x00)
     + 256 * Z_of_byte (nth (S off) frame Byte.x00))%Z.
Proof.
  unfold Uint16. apply lor_shiftl_8; apply Z_of_byte_range.
Qed.

Lemma int16_at_range frame i : (-32768 <= int16_at frame i <= 32767)%Z.
Proof.
  unfold int16_at, int16_of_uint16. rewrite Uint16_value.
  pose proof (Z_of_byte_range (nth (i * 2) frame Byte.x00)).
  pose proof (Z_of_byte_range (nth (S (i * 2)) frame Byte.x00)).
  destruct (Z.ltb_spec (Z_of_byte (nth (i * 2) frame Byte.x00)
     + 256 * Z_of_byte (nth (S (i * 2)) frame Byte.x00)) 32768); lia.
Qed.

(** Writing back the sample read at index [i] gives the two bytes it was
    read from. *)
Lemma PutUint16_int16_at frame i :
  PutUint16 (uint16_of_int16 (int16_at frame i))
  = [nth (i * 2) frame Byte.x00; nth (S (i * 2)) frame Byte.x00].
Proof.
  unfold int16_at, int16_of_uint16, uint16_of_int16, PutUint16.
  rewrite Uint16_value.
  pose proof (Z_of_byte_range (nth (i * 2) frame Byte.x00)) as Hlo.
  pose proof (Z_of_byte_range (nth (S (i * 2)) frame Byte.x00)) as Hhi.
  set (lo := Z_of_byte (nth (i * 2) frame Byte.x00)) in *.
  set (hi := Z_of_byte (nth (S (i * 2)) frame Byte.x00)) in *.
  assert (Hu : ((if (lo + 256 * hi <? 32768)%Z then (lo + 256 * hi)%Z
                 else (lo + 256 * hi - 65536)%Z) mod 65536 = lo + 256 * hi)%Z).
  { destruct (Z.ltb_spec (lo + 256 * hi) 32768).
    - apply Z.mod_small. lia.
    - replace (lo + 256 * hi - 65536)%Z with (lo + 256 * hi + (-1) * 65536)%Z by lia.
      rewrite Z.mod_add by lia. apply Z.mod_small. lia. }
  rewrite Hu. f_equal; [|f_equal].
  - unfold byte_of_Z.
    replace ((lo + 256 * hi) mod 256)%Z with (lo mod 256)%Z.
    + apply byte_of_Z_of_byte.
    + rewrite (Z.mul_comm 256 hi), Z.mod_add by lia. reflexivity.
  - rewrite Z.shiftr_div_pow2 by lia. change (2 ^ 8)%Z with 256%Z.
    replace ((lo + 256 * hi) / 256)%Z with hi.
    + apply byte_of_Z_of_byte.
    + rewrite (Z.mul_comm 256 hi), Z.div_add by lia.
      rewrite Z.div_small by lia. reflexivity.
Qed.

(** ** Scaling and clamping of engine samples *)

Section Requantization.
Local Open Scope Z_scope.

(** A finite binary32 is normal, with a mantissa of 24 digits, or
    subnormal, with the least exponent. *)
Lemma valid_cases s m e :
  F32.valid (S754_finite s m e) = true ->
  (digits2_pos m = 24%positive /\ -149 <= e <= 104) \/
  (e = -149 /\ (digits2_pos m < 24)%positive).
Proof.
  unfold F32.valid, valid_binary, bounded, canonical_mantissa, fexp, emin,
    F32.prec, F32.emax.
  intros H. apply andb_prop in H. destruct H as [H1 H2].
  apply Z.eqb_eq in H1. apply Z.leb_le in H2. lia.
Qed.

(** The product of a normal number by 32768 is exact: the exponent
    grows by 15, or the product overflows to an infinity. *)
Lemma mul_c32768_normal s m e :
  digits2_pos m = 24%positive -> -149 <= e ->
  F32.mul (S754_finite s m e) F32.c32768 =
  if e + 15 <=? 104 then S754_finite s m (e + 15) else S754_infinity s.
Proof.
  intros Hd He.
  unfold F32.mul, F32.c32768, SFmul.
  rewrite Pos.mul_comm, xorb_false_r. 
  change (8388608 * m)%positive
    with (m~0~0~0~0~0~0~0~0~0~0~0~0~0~0~0~0~0~0~0~0~0~0~0)%positive.
  unfold binary_round_aux, shr_fexp.
  cbn [Zdigits2 digits2_pos shr_record_of_loc].
  rewrite Hd. 
  replace (fexp F32.prec F32.emax _ - (e + -8)) with 23
    by (unfold fexp, emin, F32.prec, F32.emax; cbn [Pos.succ]; lia).
  cbn [shr iter_pos shr_1 orb shr_m loc_of_shr_record round_nearest_even shr_record_of_loc Zdigits2].
  rewrite Hd.
  replace (fexp F32.prec F32.emax _ - (e + -8 + 23)) with 0
    by (unfold fexp, emin, F32.prec, F32.emax; lia).
  cbn [shr shr_m].
  replace (e + -8 + 23) with (e + 15) by lia. reflexivity.
Qed.

(** The product of a subnormal number by 32768 is a finite binary32. *)
Lemma mul_c32768_subnormal s m :
  (digits2_pos m < 24)%positive ->
  exists m' e',
    F32.mul (S754_finite s m (-149)) F32.c32768 = S754_finite s m' e' /\
    F32.valid (S754_finite s m' e') = true.
Proof.
  intros Hd.
  unfold F32.mul, F32.c32768, SFmul.
  rewrite Pos.mul_comm, xorb_false_r. 
  change (8388608 * m)%positive
    with (m~0~0~0~0~0~0~0~0~0~0~0~0~0~0~0~0~0~0~0~0~0~0~0)%positive.
  unfold binary_round_aux, shr_fexp, F32.valid, valid_binary, bounded, canonical_mantissa.
  cbn [Zdigits2 digits2_pos shr_record_of_loc].
  assert (H : In (digits2_pos m) [1;2;3;4;5;6;7;8;9;10;11;12;13;14;15;16;17;18;19;20;21;22;23]%positive).
  { cbn [In]. lia. }
  cbn [In] in H.
  repeat (destruct H as [H|H]; [rewrite <- H; cbn; rewrite <- ?H; cbn; eexists _, _; split; [reflexivity| cbn; rewrite <- ?H; reflexivity] |]).
  destruct H.
Qed.

(** A mantissa of [d] digits is below [2 ^ d]. *)
Lemma digits2_pos_bound m : Zpos m < 2 ^ Zpos (digits2_pos m).
Proof.
  induction m as [m IH|m IH|]; cbn [digits2_pos]; [| |reflexivity];
    rewrite Pos2Z.inj_succ, Z.pow_succ_r by lia; lia.
Qed.

Lemma valid_mantissa_bound s m e :
  F32.valid (S754_finite s m e) = true -> Zpos m < 16777216.
Proof.
  intros H. pose proof (digits2_pos_bound m) as Hb.
  assert (Hd : Zpos (digits2_pos m) <= 24)
    by (destruct (@valid_cases _ _ _ H) as [[-> _]|[_ ?]]; lia).
  apply (Z.lt_le_trans _ _ _ Hb).
  change 16777216 with (2 ^ 24). apply Z.pow_le_mono_r; lia.
Qed.

Lemma shiftl_neg_bound a e k :
  0 <= a -> 0 <= k -> e <= - k -> Z.shiftl a e <= a / 2 ^ k.
Proof.
  intros Ha Hk He.
  rewrite <- (Z.opp_involutive e), Z.shiftl_opp_r, Z.shiftr_div_pow2 by lia.
  apply Z.div_le_compat_l; [assumption|].
  split; [apply Z.pow_pos_nonneg; lia | apply Z.pow_le_mono_r; lia].
Qed.

Lemma shiftl_nonneg a e : 0 <= a -> 0 <= Z.shiftl a e.
Proof. intros. now apply Z.shiftl_nonneg. Qed.

(** A valid finite value, once clamped, has its integer part in the
    16-bit range. *)
Lemma clamped_finite_in_range s m e :
  F32.valid (S754_finite s m e) = true ->
  let c := S754_finite s m e in
  exists z,
    F32.truncate (if F32.ltb F32.c32767 c then F32.c32767
                  else if F32.ltb c F32.cm32768 then F32.cm32768 else c)
    = Some z /\ -32768 <= z <= 32767.
Proof.
  intros Hv c. pose proof (@valid_mantissa_bound _ _ _ Hv) as Hm.
  unfold F32.ltb, SFltb, c, F32.c32767, F32.cm32768, SFcompare.
  clear c Hv.
  destruct s.
  - (* negative *)
    destruct (Z.compare_spec e (-8)) as [He|He|He].
    + subst e. rewrite Pos.compare_cont_spec.
      rewrite Pos2Z.inj_compare.
      destruct (Z.compare_spec (Zpos m) 8388608) as [Hc|Hc|Hc]; cbn [CompOpp Pos.switch_Eq].
      * injection Hc as Hc; subst m. eexists. split; [reflexivity|]. cbv. split; discriminate.
      * eexists. split; [reflexivity|].
        pose proof (@shiftl_neg_bound (Zpos m) (-8) 8 ltac:(lia) ltac:(lia) ltac:(lia)) as Hb.
        pose proof (@shiftl_nonneg (Zpos m) (-8) ltac:(lia)).
        assert (Zpos m / 2 ^ 8 <= 32768) by (apply Z.div_le_upper_bound; lia).
        lia.
      * eexists. split; [reflexivity|]. cbv. split; discriminate.
    + eexists. split; [reflexivity|]. cbn [F32.truncate].
      pose proof (@shiftl_neg_bound (Zpos m) e 9 ltac:(lia) ltac:(lia) ltac:(lia)) as Hb.
      pose proof (@shiftl_nonneg (Zpos m) e ltac:(lia)).
      assert (Zpos m / 2 ^ 9 <= 32768) by (apply Z.div_le_upper_bound; lia).
      lia.
    + eexists. split; [reflexivity|]. cbv. split; discriminate.
  - (* positive *)
    destruct (Z.compare_spec (-9) e) as [He|He|He].
    + subst e. rewrite Pos.compare_cont_spec.
      rewrite Pos2Z.inj_compare.
      destruct (Z.compare_spec 16776704 (Zpos m)) as [Hc|Hc|Hc]; cbn [Pos.switch_Eq].
      * injection Hc as Hc; subst m. eexists. split; [reflexivity|]. cbv. split; discriminate.
      * eexists. split; [reflexivity|]. cbv. split; discriminate.
      * eexists. split; [reflexivity|].
        pose proof (@shiftl_neg_bound (Zpos m) (-9) 9 ltac:(lia) ltac:(lia) ltac:(lia)) as Hb.
        pose proof (@shiftl_nonneg (Zpos m) (-9) ltac:(lia)).
        assert (Zpos m / 2 ^ 9 <= 32767) by (apply Z.lt_succ_r, Z.div_lt_upper_bound; lia).
        lia.
    + eexists. split; [reflexivity|]. cbv. split; discriminate.
    + eexists. split; [reflexivity|]. cbn [F32.truncate].
      pose proof (@shiftl_neg_bound (Zpos m) e 10 ltac:(lia) ltac:(lia) ltac:(lia)) as Hb.
      pose proof (@shiftl_nonneg (Zpos m) e ltac:(lia)).
      assert (Zpos m / 2 ^ 10 <= 32767) by (apply Z.lt_succ_r, Z.div_lt_upper_bound; lia).
      lia.
Qed.

Lemma normal_product_valid s m e :
  digits2_pos m = 24%positive -> -149 <= e -> e + 15 <= 104 ->
  F32.valid (S754_finite s m (e + 15)) = true.
Proof.
  intros Hd He Hle.
  unfold F32.valid, valid_binary, bounded, canonical_mantissa, fexp, emin,
    F32.prec, F32.emax.
  rewrite Hd. apply andb_true_intro. split; [apply Z.eqb_eq|apply Z.leb_le]; lia.
Qed.

Lemma wrap16_small z : -32768 <= z <= 32767 -> F32.wrap16 z = z.
Proof. intros H. unfold F32.wrap16. rewrite Z.mod_small; lia. Qed.

(** Within the 16-bit range the conversion is the integer part. *)
Lemma to_int16_exact x z :
  F32.truncate x = Some z -> -32768 <= z <= 32767 -> F32.to_int16 x = z.
Proof.
  intros Ht Hz. unfold F32.to_int16. rewrite Ht.
  destruct (Z.leb_spec (-2147483648) z); [|lia].
  destruct (Z.leb_spec z 2147483647); [|lia].
  now apply wrap16_small.
Qed.

(** Full scale and above clamps to 32767. *)
Lemma clampSample_full_scale sample :
  F32.valid sample = true -> F32.leb F32.c1 sample = true ->
  clampSample sample = F32.c32767.
Proof.
  intros Hv Hle. destruct sample as [s|s| |s m e]; try discriminate.
  - destruct s; [discriminate|reflexivity].
  - destruct s; [discriminate|].
    assert (He : -23 <= e).
    { unfold F32.leb, SFleb, F32.c1, SFcompare in Hle.
      destruct (Z.compare_spec (-23) e); (lia || discriminate). }
    destruct (@valid_cases _ _ _ Hv) as [[Hd Hr]|[? _]]; [|lia].
    unfold clampSample. rewrite mul_c32768_normal by (assumption || lia).
    destruct (e + 15 <=? 104); [|reflexivity].
    unfold F32.ltb, SFltb, F32.c32767, SFcompare.
    destruct (Z.compare_spec (-9) (e + 15)); try lia. reflexivity.
Qed.

(** X1: the scaling and clamping of an engine sample (multiplication by
    32768, then the two comparisons) followed by the conversion to
    [int16] never wraps: for every binary32 sample that is not a NaN the
    clamped value has an integer part in [-32768, 32767] and the
    conversion returns exactly that integer part; any sample of 1.0 or
    more (infinity included) gives 32767. *)
Theorem requantization_clamps_never_wraps (sample : F32.t) :
  F32.valid sample = true ->
  F32.is_nan sample = false ->
  exists z,
    F32.truncate (clampSample sample) = Some z /\
    -32768 <= z <= 32767 /\
    F32.to_int16 (clampSample sample) = z /\
    (F32.leb F32.c1 sample = true -> z = 32767).
Proof.
  intros Hv Hnan.
  assert (H : exists z, F32.truncate (clampSample sample) = Some z
                        /\ -32768 <= z <= 32767).
  { destruct sample as [s|s| |s m e].
    - exists 0. destruct s; split; (reflexivity || lia).
    - destruct s; [exists (-32768)|exists 32767]; split; (reflexivity || lia).
    - discriminate.
    - unfold clampSample.
      destruct (@valid_cases _ _ _ Hv) as [[Hd Hr]|[-> Hd]].
      + rewrite mul_c32768_normal by (assumption || lia).
        destruct (Z.leb_spec (e + 15) 104).
        * apply clamped_finite_in_range, normal_product_valid; (assumption || lia).
        * destruct s; [exists (-32768)|exists 32767]; split; (reflexivity || lia).
      + destruct (@mul_c32768_subnormal s m Hd) as (m' & e' & -> & Hv').
        now apply clamped_finite_in_range. }
  destruct H as (z & Ht & Hz). exists z.
  repeat split; try assumption; try lia.
  - now apply to_int16_exact.
  - intros Hle. rewrite (@clampSample_full_scale _ Hv Hle) in Ht.
    now inversion Ht.
Qed.

End Requantization.

Lemma requantization_clamps_never_wraps_witness :
  exists z,
    F32.truncate (clampSample F32.c1) = Some z /\
    (-32768 <= z <= 32767)%Z /\
    F32.to_int16 (clampSample F32.c1) = z /\
    (F32.leb F32.c1 F32.c1 = true -> z = 32767%Z).
Proof.
  apply (@requantization_clamps_never_wraps F32.c1); reflexivity.
Defined.

(** ** What the frame loop emits *)

Lemma flat_map_map {A B C : Type} (f : B -> list C) (g : A -> B) (l : list A) :
  flat_map f (map g l) = flat_map (fun x => f (g x)) l.
Proof.
  induction l as [|a l IH]; [reflexivity|]. cbn. now rewrite IH.
Qed.

Lemma sample_at_int16 frame i :
  sample_at frame i = F32.div (F32.of_Z (int16_at frame i)) F32.c32768.
Proof. reflexivity. Qed.

(** The bytes written for an attenuated frame. *)
Lemma encode_attenuated frame :
  encode_samples (attenuate (decode_samples frame))
  = const_frame Byte.x00 Byte.x00.
Proof.
  unfold encode_samples, attenuate, decode_samples, const_frame.
  rewrite map_map, flat_map_map. apply flat_map_ext. intros i.
  rewrite sample_at_int16.
  destruct (@sample_paths (int16_at frame i) (int16_at_range frame i))
    as (-> & _ & _).
  reflexivity.
Qed.

(** The bytes written for samples left normalised. *)
Lemma encode_decoded frame :
  encode_samples (decode_samples frame) = unscaled frame.
Proof.
  unfold encode_samples, decode_samples, unscaled.
  rewrite flat_map_map. apply flat_map_ext. intros i.
  rewrite sample_at_int16.
  destruct (@sample_paths (int16_at frame i) (int16_at_range frame i))
    as (_ & _ & ->).
  reflexivity.
Qed.

(** A frame is the concatenation of its byte pairs. *)
Lemma pairs_of_frame (n : nat) :
  forall frame : list byte,
    length frame = 2 * n ->
    flat_map (fun i => [nth (i * 2) frame Byte.x00;
                        nth (S (i * 2)) frame Byte.x00]) (seq 0 n)
    = frame.
Proof.
  induction n as [|n IH]; intros frame Hlen.
  - destruct frame; [reflexivity|discriminate].
  - destruct frame as [|a [|b rest]]; try (cbn in Hlen; lia).
    cbn [seq flat_map]. rewrite <- seq_shift, flat_map_map.
    cbn [Nat.mul nth app]. do 2 f_equal.
    etransitivity; [|apply (IH rest); cbn [length] in Hlen; lia].
    apply flat_map_ext. intros i. reflexivity.
Qed.

(** The bytes written for samples scaled back and clamped. *)
Lemma encode_clamped frame :
  length frame = rnnoiseFrameBytes ->
  encode_samples (map clampSample (decode_samples frame)) = frame.
Proof.
  intros Hlen.
  unfold encode_samples, decode_samples.
  rewrite map_map, flat_map_map.
  etransitivity;
    [|apply (pairs_of_frame rnnoiseFrameSize frame); rewrite Hlen; reflexivity].
  apply flat_map_ext. intros i. rewrite sample_at_int16.
  destruct (@sample_paths (int16_at frame i) (int16_at_range frame i))
    as (_ & -> & _).
  apply PutUint16_int16_at.
Qed.

(** The loop over [denoisedFrame], in closed form. *)
Lemma overwrite_spec (denoised samples : list F32.t) :
  overwrite samples denoised
  = if length denoised <=? length samples
    then Ok (map clampSample denoised ++ skipn (length denoised) samples)
    else Panic.
Proof.
  revert samples. induction denoised as [|x denoised IH]; intros samples.
  - now destruct samples.
  - destruct samples as [|s samples]; [reflexivity|].
    cbn [overwrite length skipn map app]. rewrite IH.
    change (S (length denoised) <=? S (length samples))
      with (length denoised <=? length samples).
    now destruct (length denoised <=? length samples).
Qed.

Section FrameFacts.
Context {engine : Rnnoise}.

(** X2: a frame for which the engine reports [keepFrame = false]
    (whether or not it also reports an error) is emitted as 480 samples
    of value 0, whatever its content: the attenuation multiplies the
    normalised samples, which lie in [-1, 1), by 0.1 and the conversion
    to [int16] discards what is left. *)
Theorem noise_frame_becomes_silence (threshold : F32.t) (h : NoiseFilter)
    (frame : list byte) :
  keepFrame (snd (FilterStream h (decode_samples frame) threshold)) = false ->
  processFrame threshold (Some h) frame
  = Ok (Some (fst (FilterStream h (decode_samples frame) threshold)),
        const_frame Byte.x00 Byte.x00).
Proof.
  intros Hk. unfold processFrame, suppress.
  destruct (FilterStream h (decode_samples frame) threshold) as [h' res].
  cbn [snd fst] in *. rewrite Hk, andb_false_r. cbn [negb bind].
  now rewrite encode_attenuated.
Qed.

(** X3: the wire encoding round-trips through the float pipeline: when
    the engine reports voice, no error, and returns the samples it was
    given, the frame emitted is byte for byte the frame read. *)
Theorem unchanged_voice_frame_round_trips (threshold : F32.t) (h : NoiseFilter)
    (frame : list byte) :
  length frame = rnnoiseFrameBytes ->
  filterErr (snd (FilterStream h (decode_samples frame) threshold)) = false ->
  keepFrame (snd (FilterStream h (decode_samples frame) threshold)) = true ->
  denoisedFrame (snd (FilterStream h (decode_samples frame) threshold))
  = decode_samples frame ->
  processFrame threshold (Some h) frame
  = Ok (Some (fst (FilterStream h (decode_samples frame) threshold)), frame).
Proof.
  intros Hlen He Hk Hd. unfold processFrame, suppress.
  destruct (FilterStream h (decode_samples frame) threshold) as [h' res].
  cbn [snd fst] in *. rewrite He, Hk, Hd. cbn [negb andb].
  rewrite overwrite_spec, Nat.leb_refl, skipn_all, app_nil_r. cbn [bind].
  now rewrite encode_clamped.
Qed.

End FrameFacts.

Lemma noise_frame_becomes_silence_witness :
  @processFrame noise_engine F32.c0_5 (Some tt) frame_10000
  = Ok (Some (fst (@FilterStream noise_engine tt (decode_samples frame_10000)
                     F32.c0_5)),
        const_frame Byte.x00 Byte.x00).
Proof.
  apply (@noise_frame_becomes_silence noise_engine F32.c0_5 tt frame_10000).
  reflexivity.
Defined.

Lemma unchanged_voice_frame_round_trips_witness :
  @processFrame voice_engine F32.c0_5 (Some tt) frame_10000
  = Ok (Some (fst (@FilterStream voice_engine tt (decode_samples frame_10000)
                     F32.c0_5)),
        frame_10000).
Proof.
  apply (@unchanged_voice_frame_round_trips voice_engine F32.c0_5 tt
           frame_10000); reflexivity.
Defined.

(** ** Composition of calls *)

Section ComposeFacts.
Context {engine : Rnnoise}.

(** The output accumulated so far is a prefix of the result. *)
Lemma drain_acc fuel threshold d buf acc :
  drain fuel threshold d buf acc
  = ('(d', rest, out) <- drain fuel threshold d buf [] ;;
     Ok (d', rest, acc ++ out)).
Proof.
  revert d buf acc. induction fuel as [|fuel IH]; intros d buf acc.
  - cbn. now rewrite app_nil_r.
  - destruct (Nat.lt_ge_cases (length buf) rnnoiseFrameBytes) as [Hs|Hl].
    + rewrite !drain_stop by assumption. cbn. now rewrite app_nil_r.
    + rewrite !drain_step by assumption.
      destruct (processFrame threshold d (firstn rnnoiseFrameBytes buf))
        as [[d1 pf]|]; [|reflexivity].
      cbn [bind app]. rewrite (IH d1 _ (acc ++ pf)), (IH d1 _ pf).
      destruct (drain fuel threshold d1 (skipn rnnoiseFrameBytes buf) [])
        as [[[d2 rest] out]|]; [|reflexivity].
      cbn [bind]. now rewrite app_assoc.
Qed.

(** The loop over [A ++ B], when [A] is a whole number of frames, is the
    loop over [A] followed by the loop over [B]. *)
Lemma drain_app (k : nat) :
  forall threshold d (A B acc : list byte) fA fB fAB,
    length A = k * rnnoiseFrameBytes ->
    length A <= fA -> length B <= fB -> length A + length B <= fAB ->
    drain fAB threshold d (A ++ B) acc
    = ('(d1, _, out1) <- drain fA threshold d A acc ;;
       drain fB threshold d1 B out1).
Proof.
  pose proof frame_bytes_pos as Hpos.
  induction k as [|k IH]; intros threshold d A B acc fA fB fAB HA HfA HfB HfAB.
  - destruct A; [|discriminate]. cbn [app length] in *.
    rewrite (drain_stop fA) by (cbn [length]; lia). cbn [bind].
    apply drain_fuel_eq; lia.
  - assert (HlA : rnnoiseFrameBytes <= length A) by (cbn [Nat.mul] in HA; lia).
    destruct fAB as [|fAB]; [lia|]. destruct fA as [|fA]; [lia|].
    rewrite !drain_step by (rewrite ?length_app; lia).
    rewrite firstn_app, skipn_app.
    replace (rnnoiseFrameBytes - length A) with 0 by lia.
    cbn [firstn skipn]. rewrite app_nil_r.
    destruct (processFrame threshold d (firstn rnnoiseFrameBytes A))
      as [[d1 pf]|]; [|reflexivity].
    cbn [bind].
    apply IH; rewrite ?length_skipn; cbn [Nat.mul] in HA; lia.
Qed.

Lemma processAudioPayload_length (r r' : noiseFilterReader) payload out :
  buffer r = [] ->
  processAudioPayload r payload = Ok (r', out) ->
  length out = length payload /\ buffer r' = [] /\
  config r' = config r /\ created r' = created r.
Proof.
  intros Hb H.
  destruct (Nat.lt_ge_cases (length payload) rnnoiseFrameBytes) as [Hs|Hl].
  - rewrite processAudioPayload_short in H by assumption.
    inversion H; subst. auto.
  - destruct (processAudioPayload_spec r payload Hl H)
      as (p & rem & -> & Hp & _ & Hrem & Hbuf & Hc & Hcr).
    rewrite Hb in *. cbn [length Nat.add] in *.
    pose proof (Nat.div_mod_eq (length payload) rnnoiseFrameBytes).
    rewrite length_app. repeat split; try assumption. lia.
Qed.

End ComposeFacts.

(** X7: from an empty accumulator a call of [processAudioPayload] that
    returns emits exactly as many bytes as the payload had and leaves the
    accumulator empty. *)
Theorem payload_length_preserved {engine : Rnnoise}
    (r r' : noiseFilterReader) (payload out : list byte) :
  buffer r = [] ->
  processAudioPayload r payload = Ok (r', out) ->
  length out = length payload /\ buffer r' = [].
Proof.
  intros Hb H.
  destruct (@processAudioPayload_length _ r r' payload out Hb H) as (? & ? & _). auto.
Qed.

Lemma payload_length_preserved_witness :
  length payload_962 = length payload_962 /\
  buffer (ready_reader voice_engine tt) = [].
Proof.
  apply (@payload_length_preserved voice_engine (ready_reader voice_engine tt)
           (ready_reader voice_engine tt) payload_962 payload_962).
  - reflexivity.
  - vm_compute. reflexivity.
Defined.

(** X6: from an empty accumulator, two successive calls of
    [processAudioPayload] on [A] then [B] give the same reader and the
    same bytes (and panic alike) as one call on [A ++ B], provided the
    length of [A] is a multiple of the frame length. *)
Theorem split_on_frame_boundary {engine : Rnnoise}
    (r : noiseFilterReader) (A B : list byte) :
  buffer r = [] ->
  length A mod rnnoiseFrameBytes = 0 ->
  feed2 r A B = processAudioPayload r (A ++ B).
Proof.
  pose proof frame_bytes_pos as Hpos.
  intros Hb Hmod. unfold feed2.
  destruct (Nat.lt_ge_cases (length A) rnnoiseFrameBytes) as [Hs|Hl].
  - rewrite Nat.mod_small in Hmod by assumption.
    destruct A; [|discriminate]. cbn [app].
    rewrite processAudioPayload_short by assumption. cbn [bind].
    destruct (processAudioPayload r B) as [[r2 outB]|]; reflexivity.
  - assert (HA : length A = (length A / rnnoiseFrameBytes) * rnnoiseFrameBytes).
    { pose proof (Nat.div_mod_eq (length A) rnnoiseFrameBytes). lia. }
    rewrite (processAudioPayload_long r A) by assumption.
    rewrite (processAudioPayload_long r (A ++ B))
      by (rewrite length_app; lia).
    rewrite Hb. cbn [app].
    rewrite (@drain_app _ (length A / rnnoiseFrameBytes) (Threshold (config r))
               (denoiser r) A B [] (length A) (length B) (length (A ++ B)) HA)
      by (rewrite ?length_app; lia).
    destruct (drain (length A) (Threshold (config r)) (denoiser r) A [])
      as [[[d1 rest1] out1]|] eqn:EA; [|reflexivity].
    cbn [bind].
    destruct (@drain_spec _ _ _ _ _ _ _ _ _ (Nat.le_refl _) EA)
      as (p & Hp & _ & _ & Hrest).
    rewrite Hmod in Hrest. destruct rest1; [|discriminate].
    rewrite app_nil_r.
    destruct (Nat.lt_ge_cases (length B) rnnoiseFrameBytes) as [HsB|HlB].
    + rewrite processAudioPayload_short by assumption. cbn [bind].
      now rewrite drain_stop by assumption.
    + rewrite processAudioPayload_long by assumption.
      cbn [buffer config denoiser created app].
      rewrite (drain_acc (length B) _ _ B out1).
      destruct (drain (length B) (Threshold (config r)) d1 B [])
        as [[[d2 rest2] out2]|]; [|reflexivity].
      cbn [bind]. now rewrite app_assoc.
Qed.

Lemma split_on_frame_boundary_witness :
  feed2 (ready_reader voice_engine tt) frame_10000 [Byte.x01; Byte.x02]
  = processAudioPayload (ready_reader voice_engine tt)
      (frame_10000 ++ [Byte.x01; Byte.x02]).
Proof.
  apply (@split_on_frame_boundary voice_engine (ready_reader voice_engine tt)
           frame_10000 [Byte.x01; Byte.x02]); reflexivity.
Defined.

(** ** More on reads and binding *)

Section ReadMore.
Context {engine : Rnnoise} {rtp : Rtp} {attrs : Attrs}.

Lemma suppress_keeps_engine threshold h samples d' samples' :
  suppress threshold (Some h) samples = Ok (d', samples') -> d' <> None.
Proof.
  unfold suppress. destruct (FilterStream h samples threshold) as [h' res].
  destruct (negb (filterErr res) && keepFrame res).
  - destruct (overwrite samples (denoisedFrame res)); [|discriminate].
    cbn [bind]. inversion 1. discriminate.
  - destruct (negb (keepFrame res)); inversion 1; discriminate.
Qed.

Lemma processFrame_keeps_engine threshold d frame d' out :
  d <> None -> processFrame threshold d frame = Ok (d', out) -> d' <> None.
Proof.
  intros Hd. destruct d as [h|]; [|congruence]. unfold processFrame.
  destruct (suppress threshold (Some h) (decode_samples frame))
    as [[d1 s1]|] eqn:E; [|discriminate].
  cbn [bind]. inversion 1; subst. eapply suppress_keeps_engine; eassumption.
Qed.

Lemma drain_keeps_engine fuel :
  forall threshold d buf acc d' rest out,
    d <> None -> drain fuel threshold d buf acc = Ok (d', rest, out) ->
    d' <> None.
Proof.
  induction fuel as [|fuel IH]; intros threshold d buf acc d' rest out Hd H.
  - inversion H; now subst.
  - cbn [drain] in H. destruct (rnnoiseFrameBytes <=? length buf).
    + destruct (processFrame threshold d (firstn rnnoiseFrameBytes buf))
        as [[d1 pf]|] eqn:E; [|discriminate].
      cbn [bind] in H. eapply IH; [|eassumption].
      eapply processFrame_keeps_engine; eassumption.
    + inversion H; now subst.
Qed.

Lemma processAudioPayload_keeps_engine (r r' : noiseFilterReader) payload out :
  denoiser r <> None ->
  processAudioPayload r payload = Ok (r', out) ->
  denoiser r' <> None /\ created r' = created r /\ config r' = config r.
Proof.
  intros Hd H.
  destruct (Nat.lt_ge_cases (length payload) rnnoiseFrameBytes) as [Hs|Hl].
  - rewrite processAudioPayload_short in H by assumption.
    inversion H; subst. auto.
  - rewrite processAudioPayload_long in H by assumption.
    destruct (drain _ _ _ _ _) as [[[d rest] processed]|] eqn:E; [|discriminate].
    cbn [bind] in H. inversion H; subst. cbn.
    repeat split. eapply drain_keeps_engine; eassumption.
Qed.

Lemma initDenoiser_ready (r : noiseFilterReader) :
  denoiser r <> None -> initDenoiser r = inl r.
Proof.
  unfold initDenoiser. destruct (denoiser r); [reflexivity|congruence].
Qed.

Lemma Read_keeps_engine (r r' : noiseFilterReader) up res :
  denoiser r <> None -> Read r up = Ok (r', res) ->
  denoiser r' <> None /\ created r' = created r /\ config r' = config r.
Proof.
  intros Hd. unfold Read.
  destruct (up_err up); [inversion 1; subst; auto|].
  rewrite initDenoiser_ready by assumption.
  destruct (length (up_b up) <? up_n up); [discriminate|].
  destruct (Unmarshal _) as [[header payload]|]; [|inversion 1; subst; auto].
  destruct (0 <? length payload); [|inversion 1; subst; auto].
  destruct (processAudioPayload r payload) as [[r2 out]|] eqn:Ep;
    [|discriminate].
  cbn [bind].
  pose proof Ep as Hk. eapply processAudioPayload_keeps_engine in Hk; [|exact Hd].
  destruct (Marshal header out) as [newData|]; [|inversion 1; now subst].
  destruct (length newData <=? length (up_b up)); inversion 1; now subst.
Qed.

End ReadMore.

(** X10: once a reader holds an engine it keeps one: over any run of
    reads that return, the constructor is not called again, the reader
    still holds an engine, and its configuration is the one it was bound
    with. *)
Theorem engine_created_once
    {engine : Rnnoise} {rtp : Rtp} {attrs : Attrs}
    (ups : list Upstream) (r r' : noiseFilterReader)
    (results : list ReadResult) :
  denoiser r <> None ->
  Reads r ups = Ok (r', results) ->
  denoiser r' <> None /\ created r' = created r /\ config r' = config r.
Proof.
  revert r r' results.
  induction ups as [|up ups IH]; intros r r' results Hd H.
  - inversion H; subst. auto.
  - cbn [Reads] in H.
    destruct (Read r up) as [[r1 res]|] eqn:E1; [|discriminate].
    cbn [bind] in H.
    destruct (Reads r1 ups) as [[r2 rest]|] eqn:E2; [|discriminate].
    cbn [bind] in H. inversion H; subst.
    eapply Read_keeps_engine in E1; [|exact Hd].
    destruct E1 as (Hd1 & Hc1 & Hg1).
    eapply IH in E2; [|exact Hd1].
    destruct E2 as (Hd2 & Hc2 & Hg2).
    repeat split; congruence.
Qed.

Lemma engine_created_once_witness :
  denoiser (ready_reader voice_engine tt) <> None /\
  created (ready_reader voice_engine tt) = created (ready_reader voice_engine tt)
  /\ config (ready_reader voice_engine tt)
     = config (ready_reader voice_engine tt).
Proof.
  apply (@engine_created_once voice_engine fixed_header string_attrs
           two_packets (ready_reader voice_engine tt)
           (ready_reader voice_engine tt) (map unchanged two_packets)).
  - discriminate.
  - vm_compute. reflexivity.
Defined.

(** X8: [Read] reports an error exactly when the wrapped reader did;
    in that case the reader is untouched (no engine is created) and the
    length, bytes and attributes of the wrapped reader are returned as
    they are. *)
Theorem read_error_only_from_upstream
    {engine : Rnnoise} {rtp : Rtp} {attrs : Attrs}
    (r r' : noiseFilterReader) (up : Upstream) (res : ReadResult) :
  Read r up = Ok (r', res) ->
  out_err res = up_err up /\
  (up_err up = true ->
   r' = r /\ out_b res = up_b up /\ out_n res = up_n up /\
   out_a res = up_a up).
Proof.
  unfold Read. destruct (up_err up) eqn:Herr.
  - inversion 1; subst. cbn. auto.
  - intros H. split; [|discriminate]. revert H.
    destruct (initDenoiser r) as [r1|r1]; [|inversion 1; now subst].
    destruct (length (up_b up) <? up_n up); [discriminate|].
    destruct (Unmarshal _) as [[header payload]|]; [|inversion 1; now subst].
    destruct (0 <? length payload); [|inversion 1; now subst].
    destruct (processAudioPayload r1 payload) as [[r2 out]|]; [|discriminate].
    cbn [bind].
    destruct (Marshal header out) as [newData|]; [|inversion 1; now subst].
    destruct (length newData <=? length (up_b up)); inversion 1; now subst.
Qed.

Lemma read_error_only_from_upstream_witness :
  out_err (unchanged (upstream_packet [Byte.x01; Byte.x02]))
  = up_err (upstream_packet [Byte.x01; Byte.x02]) /\
  (up_err (upstream_packet [Byte.x01; Byte.x02]) = true ->
   ready_reader voice_engine tt = fresh_reader voice_engine /\
   out_b (unchanged (upstream_packet [Byte.x01; Byte.x02]))
   = up_b (upstream_packet [Byte.x01; Byte.x02]) /\
   out_n (unchanged (upstream_packet [Byte.x01; Byte.x02]))
   = up_n (upstream_packet [Byte.x01; Byte.x02]) /\
   out_a (unchanged (upstream_packet [Byte.x01; Byte.x02]))
   = up_a (upstream_packet [Byte.x01; Byte.x02])).
Proof.
  apply (@read_error_only_from_upstream voice_engine fixed_header string_attrs
           (fresh_reader voice_engine) (ready_reader voice_engine tt)
           (upstream_packet [Byte.x01; Byte.x02])
           (unchanged (upstream_packet [Byte.x01; Byte.x02]))).
  vm_compute. reflexivity.
Defined.

(** X9: when the wrapped reader returned a length within the caller's
    slice, [Read] leaves the slice with its length, returns a length
    within it, and leaves the bytes beyond the returned length as they
    were. *)
Theorem read_stays_in_slice
    {engine : Rnnoise} {rtp : Rtp} {attrs : Attrs}
    (r r' : noiseFilterReader) (up : Upstream) (res : ReadResult) :
  up_n up <= length (up_b up) ->
  Read r up = Ok (r', res) ->
  length (out_b res) = length (up_b up) /\
  out_n res <= length (out_b res) /\
  skipn (out_n res) (out_b res) = skipn (out_n res) (up_b up).
Proof.
  intros Hn. unfold Read.
  destruct (up_err up); [inversion 1; subst; cbn; auto|].
  destruct (initDenoiser r) as [r1|r1]; [|inversion 1; subst; cbn; auto].
  destruct (length (up_b up) <? up_n up); [discriminate|].
  destruct (Unmarshal _) as [[header payload]|];
    [|inversion 1; subst; cbn; auto].
  destruct (0 <? length payload); [|inversion 1; subst; cbn; auto].
  destruct (processAudioPayload r1 payload) as [[r2 out]|]; [|discriminate].
  cbn [bind].
  destruct (Marshal header out) as [newData|];
    [|inversion 1; subst; cbn; auto].
  destruct (Nat.leb_spec (length newData) (length (up_b up)));
    inversion 1; subst; cbn; auto.
  rewrite length_app, length_skipn, skipn_app, Nat.sub_diag, skipn_all.
  cbn [app skipn]. repeat split; lia.
Qed.

Lemma read_stays_in_slice_witness :
  length (out_b (unchanged (upstream_packet payload_962)))
  = length (up_b (upstream_packet payload_962)) /\
  out_n (unchanged (upstream_packet payload_962))
  <= length (out_b (unchanged (upstream_packet payload_962))) /\
  skipn (out_n (unchanged (upstream_packet payload_962)))
        (out_b (unchanged (upstream_packet payload_962)))
  = skipn (out_n (unchanged (upstream_packet payload_962)))
          (up_b (upstream_packet payload_962)).
Proof.
  apply (@read_stays_in_slice voice_engine fixed_header string_attrs
           (fresh_reader voice_engine) (ready_reader voice_engine tt)
           (upstream_packet payload_962)
           (unchanged (upstream_packet payload_962))).
  - vm_compute. lia.
  - vm_compute. reflexivity.
Defined.

(** X12: when the wrapped reader succeeds and an engine is available,
    [Read] never returns nil attributes: it returns the map it was given,
    or a fresh one; when the constructor fails the attributes are
    returned as the wrapped reader gave them, nil included. *)
Theorem read_attributes
    {engine : Rnnoise} {rtp : Rtp} {attrs : Attrs}
    (r r' : noiseFilterReader) (up : Upstream) (res : ReadResult) :
  up_err up = false ->
  Read r up = Ok (r', res) ->
  match initDenoiser r with
  | inl _ => out_a res = Some (match up_a up with
                               | Some m => m
                               | None => make_Attributes
                               end)
  | inr _ => out_a res = up_a up
  end.
Proof.
  intros Herr. unfold Read. rewrite Herr.
  destruct (initDenoiser r) as [r1|r1]; [|inversion 1; now subst].
  destruct (length (up_b up) <? up_n up); [discriminate|].
  assert (Ha : match up_a up with Some m => Some m | None => Some make_Attributes end
               = Some match up_a up with Some m => m | None => make_Attributes end)
    by (destruct (up_a up); reflexivity).
  destruct (Unmarshal _) as [[header payload]|];
    [|inversion 1; subst; exact Ha].
  destruct (0 <? length payload); [|inversion 1; subst; exact Ha].
  destruct (processAudioPayload r1 payload) as [[r2 out]|]; [|discriminate].
  cbn [bind].
  destruct (Marshal header out) as [newData|]; [|inversion 1; subst; exact Ha].
  destruct (length newData <=? length (up_b up)); inversion 1; subst; exact Ha.
Qed.

Lemma read_attributes_witness :
  match initDenoiser (fresh_reader voice_engine) with
  | inl _ =>
      out_a (unchanged (upstream_packet payload_962))
      = Some (match up_a (upstream_packet payload_962) with
              | Some m => m
              | None => make_Attributes
              end)
  | inr _ =>
      out_a (unchanged (upstream_packet payload_962))
      = up_a (upstream_packet payload_962)
  end.
Proof.
  apply (@read_attributes voice_engine fixed_header string_attrs
           (fresh_reader voice_engine) (ready_reader voice_engine tt)
           (upstream_packet payload_962)
           (unchanged (upstream_packet payload_962))).
  - reflexivity.
  - vm_compute. reflexivity.
Defined.

(** X13: [BindRemoteStream] wraps the reader exactly when the
    extension slice is not nil, the configuration is enabled, and the
    lookup of the audio-level URI answers a non-zero identifier; the
    reader it builds holds the configuration read at bind time, no
    engine, an empty accumulator. *)
Theorem filter_attached_iff
    {engine : Rnnoise}
    (GetHeaderExtensionID : list RTPHeaderExtension -> string -> Z)
    (factory : NoiseFilterFactory) (info : StreamInfo) :
  (BindRemoteStream GetHeaderExtensionID factory info <> reader_original <->
   exists extensions,
     RTPHeaderExtensions info = Some extensions /\
     Enabled (GetConfig factory) = true /\
     GetHeaderExtensionID extensions audioLevelURI <> 0%Z) /\
  (forall r,
      BindRemoteStream GetHeaderExtensionID factory info = reader_filter r ->
      config r = GetConfig factory /\ denoiser r = None /\ buffer r = [] /\
      created r = 0).
Proof.
  split.
  - unfold BindRemoteStream.
    destruct (RTPHeaderExtensions info) as [extensions|].
    + destruct (Enabled (GetConfig factory)); cbn [negb].
      * destruct (Z.eqb_spec (GetHeaderExtensionID extensions audioLevelURI) 0)
          as [E|E].
        -- split; [congruence|]. intros (x & Hx & _ & Hne).
           inversion Hx; subst. congruence.
        -- split; [eauto|discriminate].
      * split; [congruence|]. intros (x & _ & Hx & _). discriminate.
    + split; [congruence|]. intros (x & Hx & _). discriminate.
  - intros r H. apply BindRemoteStream_filter in H. subst r. cbn. auto.
Qed.


(** X5: on a voice frame the engine's samples replace the first
    [len(denoisedFrame)] samples, scaled and clamped; the samples beyond
    them stay normalised; and an engine output longer than one frame
    makes the loop index out of range (a panic). *)
Theorem voice_frame_takes_engine_output {engine : Rnnoise}
    (threshold : F32.t) (h : NoiseFilter) (frame : list byte) :
  filterErr (snd (FilterStream h (decode_samples frame) threshold)) = false ->
  keepFrame (snd (FilterStream h (decode_samples frame) threshold)) = true ->
  processFrame threshold (Some h) frame
  = let res := snd (FilterStream h (decode_samples frame) threshold) in
    if length (denoisedFrame res) <=? rnnoiseFrameSize then
      Ok (Some (fst (FilterStream h (decode_samples frame) threshold)),
          encode_samples
            (map clampSample (denoisedFrame res)
               ++ skipn (length (denoisedFrame res)) (decode_samples frame)))
    else Panic.
Proof.
  intros He Hk. unfold processFrame, suppress.
  destruct (FilterStream h (decode_samples frame) threshold) as [h' res].
  cbn [snd fst] in *. rewrite He, Hk. cbn [negb andb].
  rewrite overwrite_spec, decode_samples_length.
  now destruct (length (denoisedFrame res) <=? rnnoiseFrameSize).
Qed.

Lemma voice_frame_takes_engine_output_witness :
  @processFrame short_engine F32.c0_5 (Some tt) frame_10000
  = let res := snd (@FilterStream short_engine tt (decode_samples frame_10000)
                      F32.c0_5) in
    if length (denoisedFrame res) <=? rnnoiseFrameSize then
      Ok (Some (fst (@FilterStream short_engine tt
                       (decode_samples frame_10000) F32.c0_5)),
          encode_samples
            (map clampSample (denoisedFrame res)
               ++ skipn (length (denoisedFrame res))
                    (decode_samples frame_10000)))
    else Panic.
Proof.
  apply (@voice_frame_takes_engine_output short_engine F32.c0_5 tt frame_10000);
    reflexivity.
Defined.

(** X11: one [Read] calls the engine's constructor at most once, and
    only when the reader holds no engine and the wrapped reader
    succeeded. *)
Theorem constructor_called_only_without_engine
    {engine : Rnnoise} {rtp : Rtp} {attrs : Attrs}
    (r r' : noiseFilterReader) (up : Upstream) (res : ReadResult) :
  Read r up = Ok (r', res) ->
  created r' = created r \/
  (created r' = S (created r) /\ denoiser r = None /\ up_err up = false).
Proof.
  unfold Read. destruct (up_err up); [inversion 1; subst; auto|].
  assert (Hi : forall q, initDenoiser r = inl q \/ initDenoiser r = inr q ->
               created q = created r \/
               (created q = S (created r) /\ denoiser r = None /\ false = false)).
  { unfold initDenoiser. intros q. destruct (denoiser r).
    - intros [H|H]; inversion H; auto.
    - destruct (NewNoiseFilter (created r)) as [h err].
      destruct err; intros [H|H]; inversion H; cbn; auto. }
  destruct (initDenoiser r) as [r1|r1]; [|inversion 1; subst; auto].
  specialize (Hi r1 (or_introl eq_refl)).
  destruct (length (up_b up) <? up_n up); [discriminate|].
  destruct (Unmarshal _) as [[header payload]|]; [|inversion 1; now subst].
  destruct (0 <? length payload); [|inversion 1; now subst].
  destruct (processAudioPayload r1 payload) as [[r2 out]|] eqn:Ep;
    [|discriminate].
  cbn [bind].
  assert (Hc : created r2 = created r1).
  { destruct (Nat.lt_ge_cases (length payload) rnnoiseFrameBytes) as [Hs|Hl].
    - rewrite processAudioPayload_short in Ep by assumption. now inversion Ep.
    - eapply processAudioPayload_spec in Ep; [|assumption].
      now destruct Ep as (_ & _ & _ & _ & _ & _ & _ & _ & ?). }
  rewrite <- Hc in Hi.
  destruct (Marshal header out) as [newData|]; [|inversion 1; now subst].
  destruct (length newData <=? length (up_b up)); inversion 1; now subst.
Qed.

Lemma constructor_called_only_without_engine_witness :
  created (ready_reader voice_engine tt) = created (fresh_reader voice_engine)
  \/ (created (ready_reader voice_engine tt)
      = S (created (fresh_reader voice_engine)) /\
      denoiser (fresh_reader voice_engine) = None /\
      up_err (upstream_packet payload_962) = false).
Proof.
  apply (@constructor_called_only_without_engine voice_engine fixed_header
           string_attrs (fresh_reader voice_engine)
           (ready_reader voice_engine tt) (upstream_packet payload_962)
           (unchanged (upstream_packet payload_962))).
  vm_compute. reflexivity.
Defined.

(** X4: when [FilterStream] fails with [keepFrame = true], or when the
    reader has no engine inside the loop, the normalised samples are
    converted to [int16] as they are: every sample of the frame comes out
    as 0, except a sample of -32768, which comes out as -1. *)
Theorem failed_frame_is_unscaled {engine : Rnnoise}
    (threshold : F32.t) (d : option NoiseFilter) (frame : list byte) :
  (forall h, d = Some h ->
     filterErr (snd (FilterStream h (decode_samples frame) threshold)) = true /\
     keepFrame (snd (FilterStream h (decode_samples frame) threshold)) = true) ->
  exists d',
    processFrame threshold d frame = Ok (d', unscaled frame) /\
    (d = None <-> d' = None).
Proof.
  intros H. unfold processFrame, suppress. destruct d as [h|].
  - destruct (H h eq_refl) as [He Hk].
    destruct (FilterStream h (decode_samples frame) threshold) as [h' res].
    cbn [snd] in *. rewrite He, Hk. cbn [negb andb bind].
    rewrite encode_decoded. eexists. split; [reflexivity|].
    split; discriminate.
  - cbn [bind]. rewrite encode_decoded. eexists. split; [reflexivity|].
    split; reflexivity.
Qed.

Lemma failed_frame_is_unscaled_witness :
  exists d',
    @processFrame error_engine F32.c0_5 (Some tt) frame_10000
    = Ok (d', unscaled frame_10000) /\
    (Some tt = None <-> d' = None).
Proof.
  apply (@failed_frame_is_unscaled error_engine F32.c0_5 (Some tt) frame_10000).
  intros h _. split; reflexivity.
Defined.

(** X15: a [Read] that returns has done one of two things: returned
    the packet of the wrapped reader as it was, or replaced it by the
    serialisation of the parsed header with the processed payload, which
    then fits the caller's slice and comes without error. *)
Theorem read_returns_original_or_processed
    {engine : Rnnoise} {rtp : Rtp} {attrs : Attrs}
    (r r' : noiseFilterReader) (up : Upstream) (res : ReadResult) :
  Read r up = Ok (r', res) ->
  (out_b res = up_b up /\ out_n res = up_n up) \/
  (exists r1 header payload processedPayload newData,
      up_err up = false /\
      initDenoiser r = inl r1 /\
      Unmarshal (firstn (up_n up) (up_b up)) = Some (header, payload) /\
      0 < length payload /\
      processAudioPayload r1 payload = Ok (r', processedPayload) /\
      Marshal header processedPayload = Some newData /\
      length newData <= length (up_b up) /\
      out_b res = newData ++ skipn (length newData) (up_b up) /\
      out_n res = length newData /\
      out_err res = false).
Proof.
  unfold Read. destruct (up_err up); [inversion 1; subst; cbn; auto|].
  destruct (initDenoiser r) as [r1|r1]; [|inversion 1; subst; cbn; auto].
  destruct (length (up_b up) <? up_n up); [discriminate|].
  destruct (Unmarshal _) as [[header payload]|] eqn:Eu;
    [|inversion 1; subst; cbn; auto].
  destruct (Nat.ltb_spec 0 (length payload)); [|inversion 1; subst; cbn; auto].
  destruct (processAudioPayload r1 payload) as [[r2 out]|] eqn:Ep;
    [|discriminate].
  cbn [bind].
  destruct (Marshal header out) as [newData|] eqn:Em;
    [|inversion 1; subst; cbn; auto].
  destruct (Nat.leb_spec (length newData) (length (up_b up)));
    inversion 1; subst; cbn; auto.
  right. exists r1, header, payload, out, newData. repeat split; assumption.
Qed.

Lemma read_returns_original_or_processed_witness :
  (out_b (unchanged (upstream_packet payload_962))
   = up_b (upstream_packet payload_962) /\
   out_n (unchanged (upstream_packet payload_962))
   = up_n (upstream_packet payload_962)) \/
  (exists r1 header payload processedPayload newData,
      up_err (upstream_packet payload_962) = false /\
      initDenoiser (fresh_reader voice_engine) = inl r1 /\
      Unmarshal (firstn (up_n (upstream_packet payload_962))
                   (up_b (upstream_packet payload_962)))
      = Some (header, payload) /\
      0 < length payload /\
      processAudioPayload r1 payload
      = Ok (ready_reader voice_engine tt, processedPayload) /\
      Marshal header processedPayload = Some newData /\
      length newData <= length (up_b (upstream_packet payload_962)) /\
      out_b (unchanged (upstream_packet payload_962))
      = newData ++ skipn (length newData) (up_b (upstream_packet payload_962)) /\
      out_n (unchanged (upstream_packet payload_962)) = length newData /\
      out_err (unchanged (upstream_packet payload_962)) = false).
Proof.
  apply (@read_returns_original_or_processed voice_engine fixed_header
           string_attrs (fresh_reader voice_engine)
           (ready_reader voice_engine tt) (upstream_packet payload_962)
           (unchanged (upstream_packet payload_962))).
  vm_compute. reflexivity.
Defined.

(** ** Whole payloads and whole runs *)

Lemma firstn_add {A : Type} (a b : nat) (l : list A) :
  firstn (a + b) l = firstn a l ++ firstn b (skipn a l).
Proof.
  revert l. induction a as [|a IH]; intros l; [reflexivity|].
  destruct l as [|x l]; [cbn [skipn]; now rewrite !firstn_nil|].
  cbn [Nat.add firstn skipn app]. now rewrite IH.
Qed.

Lemma const_frame_zero : const_frame Byte.x00 Byte.x00 = repeat Byte.x00 rnnoiseFrameBytes.
Proof. reflexivity. Qed.

Lemma frames_step (n : nat) :
  rnnoiseFrameBytes <= n ->
  rnnoiseFrameBytes * (n / rnnoiseFrameBytes)
  = rnnoiseFrameBytes
    + rnnoiseFrameBytes * ((n - rnnoiseFrameBytes) / rnnoiseFrameBytes).
Proof.
  intros H. pose proof frame_bytes_pos.
  replace n with ((n - rnnoiseFrameBytes) + 1 * rnnoiseFrameBytes) at 1 by lia.
  rewrite Nat.div_add by lia. lia.
Qed.

Section WholePayload.
Context {engine : Rnnoise}.

(** With a transparent engine the loop copies the complete frames. *)
Lemma drain_transparent (fuel : nat) :
  transparent engine ->
  forall threshold h buf acc,
    length buf <= fuel ->
    exists h',
      drain fuel threshold (Some h) buf acc
      = Ok (Some h',
            skipn (rnnoiseFrameBytes * (length buf / rnnoiseFrameBytes)) buf,
            acc ++ firstn (rnnoiseFrameBytes
                           * (length buf / rnnoiseFrameBytes)) buf).
Proof.
  pose proof frame_bytes_pos as Hpos. intros Ht.
  induction fuel as [fuel IH] using lt_wf_ind; intros threshold h buf acc Hle.
  destruct (Nat.lt_ge_cases (length buf) rnnoiseFrameBytes) as [Hs|Hl].
  - rewrite drain_stop by assumption.
    rewrite Nat.div_small, Nat.mul_0_r by assumption.
    exists h. cbn [skipn firstn]. now rewrite app_nil_r.
  - destruct fuel as [|fuel]; [lia|].
    rewrite drain_step by assumption.
    destruct (Ht h (decode_samples (firstn rnnoiseFrameBytes buf)) threshold)
      as (He & Hk & Hd).
    assert (Hf : length (firstn rnnoiseFrameBytes buf) = rnnoiseFrameBytes)
      by (rewrite length_firstn; lia).
    unfold processFrame at 1, suppress.
    destruct (FilterStream h (decode_samples (firstn rnnoiseFrameBytes buf))
                threshold) as [h1 res].
    cbn [snd] in He, Hk, Hd. rewrite He, Hk, Hd. cbn [negb andb].
    rewrite overwrite_spec, Nat.leb_refl, skipn_all, app_nil_r. cbn [bind].
    rewrite (encode_clamped _ Hf).
    destruct (IH fuel (Nat.lt_succ_diag_r fuel) threshold h1
                (skipn rnnoiseFrameBytes buf)
                (acc ++ firstn rnnoiseFrameBytes buf)) as (h' & ->).
    { rewrite length_skipn. lia. }
    exists h'. rewrite length_skipn, (frames_step Hl), skipn_skipn, firstn_add.
    rewrite <- app_assoc, (Nat.add_comm _ rnnoiseFrameBytes). reflexivity.
Qed.

(** With a deaf engine the loop zeroes the complete frames. *)
Lemma drain_deaf (fuel : nat) :
  deaf engine ->
  forall threshold h buf acc,
    length buf <= fuel ->
    exists h',
      drain fuel threshold (Some h) buf acc
      = Ok (Some h',
            skipn (rnnoiseFrameBytes * (length buf / rnnoiseFrameBytes)) buf,
            acc ++ repeat Byte.x00
                     (rnnoiseFrameBytes * (length buf / rnnoiseFrameBytes))).
Proof.
  pose proof frame_bytes_pos as Hpos. intros Ht.
  induction fuel as [fuel IH] using lt_wf_ind; intros threshold h buf acc Hle.
  destruct (Nat.lt_ge_cases (length buf) rnnoiseFrameBytes) as [Hs|Hl].
  - rewrite drain_stop by assumption.
    rewrite Nat.div_small, Nat.mul_0_r by assumption.
    exists h. cbn [skipn repeat]. now rewrite app_nil_r.
  - destruct fuel as [|fuel]; [lia|].
    rewrite drain_step by assumption.
    pose proof (Ht h (decode_samples (firstn rnnoiseFrameBytes buf)) threshold)
      as Hk.
    unfold processFrame at 1, suppress.
    destruct (FilterStream h (decode_samples (firstn rnnoiseFrameBytes buf))
                threshold) as [h1 res].
    cbn [snd] in Hk. rewrite Hk, andb_false_r. cbn [negb bind].
    rewrite encode_attenuated, const_frame_zero.
    destruct (IH fuel (Nat.lt_succ_diag_r fuel) threshold h1
                (skipn rnnoiseFrameBytes buf)
                (acc ++ repeat Byte.x00 rnnoiseFrameBytes)) as (h' & ->).
    { rewrite length_skipn. lia. }
    exists h'. rewrite length_skipn, (frames_step Hl), skipn_skipn, repeat_app.
    rewrite <- app_assoc, (Nat.add_comm _ rnnoiseFrameBytes). reflexivity.
Qed.

End WholePayload.

(** X16: with a transparent engine the whole transform is lossless:
    from an empty accumulator, [processAudioPayload] returns the payload
    it was given, byte for byte, whatever its length. *)
Theorem transparent_engine_leaves_payload_unchanged {engine : Rnnoise}
    (r : noiseFilterReader) (h : NoiseFilter) (payload : list byte) :
  transparent engine ->
  denoiser r = Some h ->
  buffer r = [] ->
  exists r',
    processAudioPayload r payload = Ok (r', payload) /\
    buffer r' = [] /\ denoiser r' <> None.
Proof.
  intros Ht Hd Hb.
  destruct (Nat.lt_ge_cases (length payload) rnnoiseFrameBytes) as [Hs|Hl].
  - rewrite processAudioPayload_short by assumption.
    exists r. repeat split; [assumption|congruence].
  - rewrite processAudioPayload_long by assumption. rewrite Hd, Hb. cbn [app].
    destruct (drain_transparent Ht (Threshold (config r)) h payload []
                (Nat.le_refl (length payload))) as (h' & ->).
    cbn [bind app]. rewrite firstn_skipn.
    eexists. split; [reflexivity|]. cbn. split; [reflexivity|discriminate].
Qed.

(** X17: with an engine that never reports voice, a payload of at least
    one frame comes back with every complete frame zeroed and the bytes
    after the last complete frame untouched. *)
Theorem deaf_engine_silences_whole_frames {engine : Rnnoise}
    (r : noiseFilterReader) (h : NoiseFilter) (payload : list byte) :
  deaf engine ->
  denoiser r = Some h ->
  buffer r = [] ->
  rnnoiseFrameBytes <= length payload ->
  exists r',
    processAudioPayload r payload
    = Ok (r',
          repeat Byte.x00
            (rnnoiseFrameBytes * (length payload / rnnoiseFrameBytes))
          ++ skipn (rnnoiseFrameBytes * (length payload / rnnoiseFrameBytes))
               payload).
Proof.
  intros Ht Hd Hb Hl.
  rewrite processAudioPayload_long by assumption. rewrite Hd, Hb. cbn [app].
  destruct (drain_deaf Ht (Threshold (config r)) h payload []
              (Nat.le_refl (length payload))) as (h' & ->).
  cbn [bind app]. eexists. reflexivity.
Qed.

Lemma voice_engine_transparent : transparent voice_engine.
Proof. intros h samples threshold. cbn. auto. Qed.

Lemma noise_engine_deaf : deaf noise_engine.
Proof. intros h samples threshold. reflexivity. Qed.

Lemma transparent_engine_leaves_payload_unchanged_witness :
  exists r',
    processAudioPayload (ready_reader voice_engine tt) payload_962
    = Ok (r', payload_962) /\
    buffer r' = [] /\ denoiser r' <> None.
Proof.
  apply (@transparent_engine_leaves_payload_unchanged voice_engine
           (ready_reader voice_engine tt) tt payload_962).
  - exact voice_engine_transparent.
  - reflexivity.
  - reflexivity.
Defined.

Lemma deaf_engine_silences_whole_frames_witness :
  exists r',
    processAudioPayload (ready_reader noise_engine tt) payload_962
    = Ok (r',
          repeat Byte.x00
            (rnnoiseFrameBytes * (length payload_962 / rnnoiseFrameBytes))
          ++ skipn (rnnoiseFrameBytes
                    * (length payload_962 / rnnoiseFrameBytes))
               payload_962).
Proof.
  apply (@deaf_engine_silences_whole_frames noise_engine
           (ready_reader noise_engine tt) tt payload_962).
  - exact noise_engine_deaf.
  - reflexivity.
  - reflexivity.
  - vm_compute. lia.
Defined.

Section Totality.
Context {engine : Rnnoise} {rtp : Rtp} {attrs : Attrs}.

(** One read returns when the length is within the slice. *)
Lemma Read_returns (r : noiseFilterReader) (up : Upstream) :
  frame_sized -> up_n up <= length (up_b up) ->
  exists r' res, Read r up = Ok (r', res).
Proof.
  intros Hsz Hn. unfold Read.
  destruct (up_err up); [eauto|].
  destruct (initDenoiser r) as [r1|r1]; [|eauto].
  destruct (Nat.ltb_spec (length (up_b up)) (up_n up)); [lia|].
  destruct (Unmarshal _) as [[header payload]|]; [|eauto].
  destruct (0 <? length payload); [|eauto].
  destruct (processAudioPayload_ok r1 payload Hsz) as (r2 & out & ->).
  cbn [bind].
  destruct (Marshal header out) as [newData|]; [|eauto].
  destruct (length newData <=? length (up_b up)); eauto.
Qed.

End Totality.

(** X18: with an engine that never returns more than one frame of
    samples and a wrapped reader that returns lengths within the caller's
    slice, every run of reads returns, with one result per read. *)
Theorem reads_never_panic
    {engine : Rnnoise} {rtp : Rtp} {attrs : Attrs}
    (ups : list Upstream) (r : noiseFilterReader) :
  frame_sized ->
  Forall (fun up => up_n up <= length (up_b up)) ups ->
  exists r' results,
    Reads r ups = Ok (r', results) /\ length results = length ups.
Proof.
  intros Hsz Hall. revert r.
  induction Hall as [|up ups Hup _ IH]; intros r.
  - exists r, []. split; reflexivity.
  - destruct (Read_returns r up Hsz Hup) as (r1 & res & E1).
    destruct (IH r1) as (r2 & rest & E2 & Hlen).
    exists r2, (res :: rest). cbn [Reads]. rewrite E1. cbn [bind].
    rewrite E2. cbn [bind length]. split; [reflexivity|congruence].
Qed.

Lemma reads_never_panic_witness :
  exists r' results,
    Reads (fresh_reader voice_engine) two_packets = Ok (r', results) /\
    length results = length two_packets.
Proof.
  apply (@reads_never_panic voice_engine fixed_header string_attrs
           two_packets (fresh_reader voice_engine)).
  - exact voice_engine_frame_sized.
  - repeat constructor.
Defined.
